(** * Viewport synchronisation of the trip-planner map

    A shallow embedding of [lib/components/map/bounds-updating-overlay.js]:
    the [BoundsUpdatingOverlay] component, which compares the previous and
    the current props on every mount/update and moves the Leaflet map
    accordingly ([updateBounds]), together with its deferred refit
    ([_fitItineraryViewToMap]) and its lifecycle methods.

    JavaScript values are modelled as the code uses them: a value that can be
    [undefined] or [null] is a [nullable]; numbers that hold coordinates are
    binary64 floats; leg and step indexes are integers; calls on the map
    handle and [setTimeout] are effects of a small state-and-exception monad
    whose state is the log of map calls, the pending timers and a clock. *)

From Stdlib Require Import Floats ZArith List String Bool Lia.
From Stdlib Require Import DecimalString.
Import ListNotations.

Set Implicit Arguments.
Set Warnings "-inexact-float".

Local Open Scope bool_scope.
Local Open Scope string_scope.
Local Open Scope list_scope.

(** ** JavaScript values *)

(** A value that may be [undefined] or [null].  Only objects and arrays are
    ever tested for truthiness by the component, so [Val _] is truthy. *)
Inductive nullable (A : Type) : Type :=
| Undefined
| Null
| Val (a : A).

Arguments Undefined {A}.
Arguments Null {A}.

Definition truthy {A} (v : nullable A) : bool :=
  match v with Val _ => true | _ => false end.

(** [v !== null] *)
Definition notNull {A} (v : nullable A) : bool :=
  match v with Null => false | _ => true end.

(** [a && a.f]: the left operand when it is falsy, the field otherwise. *)
Definition andField {A B} (a : nullable A) (f : A -> nullable B) : nullable B :=
  match a with
  | Undefined => Undefined
  | Null => Null
  | Val x => f x
  end.

(** [v === w] on values that are [undefined], [null] or a primitive compared
    by [eqb]. *)
Definition strictEq {A} (eqb : A -> A -> bool) (v w : nullable A) : bool :=
  match v, w with
  | Undefined, Undefined => true
  | Null, Null => true
  | Val a, Val b => eqb a b
  | _, _ => false
  end.

(** [arr[i]]: the element at a non-negative integer index within the array,
    [undefined] for every other index (also for [arr[undefined]]). *)
Definition index {A} (arr : list A) (i : nullable Z) : nullable A :=
  match i with
  | Val z =>
      if (0 <=? z)%Z
      then match nth_error arr (Z.to_nat z) with
           | Some a => Val a
           | None => Undefined
           end
      else Undefined
  | _ => Undefined
  end.

(** ** lodash [isEqual] on the values the component compares *)

(** Numbers: [===], or both [NaN] (SameValueZero). *)
Definition isEqualNumber (x y : float) : bool :=
  PrimFloat.eqb x y || (negb (PrimFloat.eqb x x) && negb (PrimFloat.eqb y y)).

Definition isEqualNullable {A} (eq : A -> A -> bool) (v w : nullable A) : bool :=
  match v, w with
  | Undefined, Undefined => true
  | Null, Null => true
  | Val a, Val b => eq a b
  | _, _ => false
  end.

Fixpoint isEqualArray {A} (eq : A -> A -> bool) (l1 l2 : list A) : bool :=
  match l1, l2 with
  | [], [] => true
  | a :: l1', b :: l2' => eq a b && isEqualArray eq l1' l2'
  | _, _ => false
  end.

(** ** The data of the props *)

Definition LatLng : Type := float * float.

Record Place := {
  lat : float;
  lon : float;
  name : string
}.

Record Query := {
  from : nullable Place;
  to : nullable Place;
  intermediatePlaces : nullable (list (nullable Place))
}.

Record Step := {
  step_lat : float;
  step_lon : float
}.

Record Leg := {
  steps : list Step
}.

Record Itinerary := {
  legs : list Leg
}.

Definition isEqualPlace (p q : Place) : bool :=
  isEqualNumber (lat p) (lat q) &&
  isEqualNumber (lon p) (lon q) &&
  String.eqb (name p) (name q).

(** [places.filter(place => place)] *)
Fixpoint filterTruthy {A} (l : list (nullable A)) : list A :=
  match l with
  | [] => []
  | Val a :: l' => a :: filterTruthy l'
  | _ :: l' => filterTruthy l'
  end.

(** ** What the component consumes from outside this file

    Leaflet ([LatLngBounds] objects and their [equals]/[extend], the point
    bounds made by [L.bounds]), the geometry helpers of [util/itinerary],
    and the two predicates of [@opentripplanner/core-utils]. *)
Class Externals := {
  (** Leaflet's [LatLngBounds] objects *)
  LatLngBounds : Type;
  latLngBounds_equals : LatLngBounds -> LatLngBounds -> bool;
  latLngBounds_extend : LatLngBounds -> LatLng -> LatLngBounds;
  (** Leaflet's point [Bounds], built by [L.bounds([p, q])] *)
  Bounds : Type;
  L_bounds : LatLng -> LatLng -> Bounds;
  bounds_extend : Bounds -> LatLng -> Bounds;
  getBottomLeft : Bounds -> LatLng;
  getTopRight : Bounds -> LatLng;
  (** [getLeafletItineraryBounds] and [getLeafletLegBounds] of
      [util/itinerary]; the latter is handed [legs[activeLeg]], which is
      [undefined] when the index is out of range. *)
  getLeafletItineraryBounds : Itinerary -> LatLngBounds;
  getLeafletLegBounds : nullable Leg -> LatLngBounds;
  (** [coreUtils.map.isValidLatLng] and [coreUtils.ui.isMobile()] *)
  isValidLatLng : LatLng -> bool;
  isMobile : bool
}.

(** The fixed options key/value pairs of a [fitBounds] call: an object
    literal from key to a pair of pixel paddings. *)
Definition FitOptions : Type := list (string * list Z).

(** Padding around itinerary bounds and map bounds. *)
Definition BOUNDS_PADDING : list Z := [30%Z; 30%Z].

(** The value Leaflet's [fitBounds] reads as its padding: the [padding] key
    of the options object, when there is one. *)
Fixpoint lookupKey (k : string) (o : FitOptions) : option (list Z) :=
  match o with
  | [] => None
  | (k', v) :: o' => if String.eqb k k' then Some v else lookupKey k o'
  end.

Definition paddingOption (o : nullable FitOptions) : option (list Z) :=
  match o with
  | Val kv => lookupKey "padding" kv
  | _ => None
  end.

Section Overlay.

Context {ext : Externals}.

(** The map handle: [getBounds()] reads the bounds it displays. *)
Record MapHandle := {
  getBounds : LatLngBounds
}.

(** The context [withLeaflet] injects as [props.leaflet]. *)
Record LeafletContext := {
  leaflet_map : nullable MapHandle
}.

Record Props := {
  activeLeg : nullable Z;
  activeStep : nullable Z;
  itinerary : nullable Itinerary;
  itineraryView : nullable string;
  popupLocation : nullable Place;
  query : nullable Query;
  leaflet : LeafletContext
}.

(** The argument of [map.fitBounds]: a bounds value as the caller holds it,
    or the array [[[left, bottom], [right, top]]]. *)
Inductive FitTarget :=
| TargetBounds (b : nullable LatLngBounds)
| TargetCorners (c1 c2 : LatLng).

Inductive MapCall :=
| invalidateSize (force : bool)
| fitBounds (target : FitTarget) (options : nullable FitOptions)
| panTo (latlng : LatLng).

(** The arrow function handed to [setTimeout] by [_fitItineraryViewToMap],
    with the variables it closes over. *)
Inductive Task :=
| FitItineraryView (newProps : Props) (bounds : nullable LatLngBounds)
                   (map : MapHandle).

Record Timer := {
  callback : Task;
  due : Z
}.

(** ** Effects *)

Record World := {
  now : Z;
  calls : list MapCall;
  timers : list Timer
}.

Inductive result (A : Type) : Type :=
| Ok (a : A)
| TypeError.

Arguments TypeError {A}.

Definition M (A : Type) : Type := World -> result (A * World).

Definition ret {A} (a : A) : M A := fun w => Ok (a, w).

Definition bind {A B} (m : M A) (k : A -> M B) : M B :=
  fun w => match m w with
           | Ok (a, w') => k a w'
           | TypeError => TypeError
           end.

Definition throw {A} : M A := fun _ => TypeError.

Definition lift {A} (r : result A) : M A :=
  fun w => match r with Ok a => Ok (a, w) | TypeError => TypeError end.

Definition emit (c : MapCall) (w : World) : World :=
  {| now := now w; calls := calls w ++ [c]; timers := timers w |}.

Definition call (c : MapCall) : M unit := fun w => Ok (tt, emit c w).

Definition schedule (t : Task) (delay : Z) (w : World) : World :=
  {| now := now w;
     calls := calls w;
     timers := timers w ++ [{| callback := t; due := (now w + delay)%Z |}] |}.

(** [setTimeout(cb, delay)]; the timer id it returns is dropped by the
    only caller. *)
Definition setTimeout (cb : Task) (delay : Z) : M unit :=
  fun w => Ok (tt, schedule cb delay w).

(** [v.f]: reading a property of [undefined] or [null] raises a TypeError. *)
Definition deref {A} (v : nullable A) : M A :=
  match v with
  | Val a => ret a
  | _ => throw
  end.

Notation "x <- m ;; k" := (bind m (fun x => k))
  (at level 61, m at next level, right associativity).
Notation "m ;;; k" := (bind m (fun _ => k))
  (at level 61, right associativity).

(** ** [extendBoundsByPlaces]

    Utility to extend input Leaflet bounds to include the list of places.
    It is applied to a point [Bounds] and to a [LatLngBounds], hence the
    [extend] method is an argument.  The default [places = []] covers
    [undefined] only: [null.filter] raises. *)
Definition extendBoundsByPlaces {B} (extend : B -> LatLng -> B) (bounds : B)
    (places : nullable (list (nullable Place))) : result B :=
  match places with
  | Undefined => Ok bounds
  | Null => TypeError
  | Val ps =>
      Ok (fold_left
            (fun b place =>
               let coords := (lat place, lon place) in
               if isValidLatLng coords then extend b coords else b)
            (filterTruthy ps) bounds)
  end.

(** ** The values [updateBounds] derives from a props object

    [propsFrom newProps] is the source's [newFrom], [propsFrom oldProps] its
    [oldFrom], and likewise for the others. *)

(** [oldProps = oldProps || {}] *)
Definition emptyProps (l : LeafletContext) : Props :=
  {| activeLeg := Undefined; activeStep := Undefined; itinerary := Undefined;
     itineraryView := Undefined; popupLocation := Undefined;
     query := Undefined; leaflet := l |}.

Definition orEmpty (oldProps : nullable Props) : Props :=
  match oldProps with
  | Val p => p
  | _ => emptyProps {| leaflet_map := Undefined |}
  end.

Definition propsFrom (p : Props) : nullable Place := andField (query p) from.

Definition propsTo (p : Props) : nullable Place := andField (query p) to.

Definition propsItinBounds (p : Props) : nullable LatLngBounds :=
  andField (itinerary p) (fun it => Val (getLeafletItineraryBounds it)).

Definition propsIntermediate (p : Props) : nullable (list (nullable Place)) :=
  andField (query p) intermediatePlaces.

Definition fromChanged (oldProps newProps : Props) : bool :=
  negb (isEqualNullable isEqualPlace (propsFrom oldProps) (propsFrom newProps)).

Definition toChanged (oldProps newProps : Props) : bool :=
  negb (isEqualNullable isEqualPlace (propsTo oldProps) (propsTo newProps)).

Definition intermediateChanged (oldProps newProps : Props) : bool :=
  negb (isEqualNullable (isEqualArray (isEqualNullable isEqualPlace))
          (propsIntermediate oldProps) (propsIntermediate newProps)).

Definition itineraryViewChanged (oldProps newProps : Props) : bool :=
  negb (strictEq String.eqb (itineraryView oldProps) (itineraryView newProps)).

(** ** The guards of the ladder, in the order of the source *)

(** [oldProps.popupLocation || newProps.popupLocation] *)
Definition popupActive (oldProps newProps : Props) : bool :=
  truthy (popupLocation oldProps) || truthy (popupLocation newProps).

(** [a.equals(b)], reached only when both are bounds objects. *)
Definition equalsBounds (a b : nullable LatLngBounds) : bool :=
  match a, b with
  | Val x, Val y => latLngBounds_equals x y
  | _, _ => false
  end.

(** [(!oldItinBounds && newItinBounds) ||
     (oldItinBounds && newItinBounds && !oldItinBounds.equals(newItinBounds))] *)
Definition itinBoundsChanged (oldProps newProps : Props) : bool :=
  let oldItinBounds := propsItinBounds oldProps in
  let newItinBounds := propsItinBounds newProps in
  (negb (truthy oldItinBounds) && truthy newItinBounds) ||
  (truthy oldItinBounds && truthy newItinBounds &&
   negb (equalsBounds oldItinBounds newItinBounds)).

(** [newProps.itinerary && newProps.activeLeg !== oldProps.activeLeg &&
     newProps.activeLeg !== null] *)
Definition legMadeActive (oldProps newProps : Props) : bool :=
  truthy (itinerary newProps) &&
  negb (strictEq Z.eqb (activeLeg newProps) (activeLeg oldProps)) &&
  notNull (activeLeg newProps).

(** [newFrom && newTo && (fromChanged || toChanged)] *)
Definition fromToPresentChanged (oldProps newProps : Props) : bool :=
  truthy (propsFrom newProps) && truthy (propsTo newProps) &&
  (fromChanged oldProps newProps || toChanged oldProps newProps).

(** [newFrom && fromChanged] and [newTo && toChanged] *)
Definition fromSet (oldProps newProps : Props) : bool :=
  truthy (propsFrom newProps) && fromChanged oldProps newProps.

Definition toSet (oldProps newProps : Props) : bool :=
  truthy (propsTo newProps) && toChanged oldProps newProps.

(** [newIntermediate && intermediateChanged] *)
Definition intermediateAdded (oldProps newProps : Props) : bool :=
  truthy (propsIntermediate newProps) && intermediateChanged oldProps newProps.

(** [newProps.itinerary && newProps.activeLeg !== null &&
     newProps.activeStep !== null &&
     newProps.activeStep !== oldProps.activeStep] *)
Definition stepMadeActive (oldProps newProps : Props) : bool :=
  truthy (itinerary newProps) &&
  notNull (activeLeg newProps) &&
  notNull (activeStep newProps) &&
  negb (strictEq Z.eqb (activeStep newProps) (activeStep oldProps)).

(** ** The commands of the branches *)

Definition paddingOptions : nullable FitOptions :=
  Val [("padding", BOUNDS_PADDING)].

(** The options object of the deferred fits, as the source writes it. *)
Definition deferredOptions : nullable FitOptions :=
  Val [("ITINERARY_MAP_PADDING", BOUNDS_PADDING)].

(** The body of the arrow function of [_fitItineraryViewToMap]. *)
Definition runTask (t : Task) : M unit :=
  match t with
  | FitItineraryView newProps bounds map =>
      call (invalidateSize true) ;;;
      if truthy (itinerary newProps) then
        if notNull (activeLeg newProps) then
          it <- deref (itinerary newProps) ;;
          call (fitBounds
                  (TargetBounds
                     (Val (getLeafletLegBounds
                             (index (legs it) (activeLeg newProps)))))
                  deferredOptions)
        else
          call (fitBounds (TargetBounds bounds) deferredOptions)
      else ret tt
  end.

(** If itineraryView has changed, force a resize of the map before
    re-fitting the active itinerary or active leg, and do that after a
    delay. *)
Definition _fitItineraryViewToMap (newProps : Props)
    (bounds : nullable LatLngBounds) (map : MapHandle) : M unit :=
  setTimeout (FitItineraryView newProps bounds map) 250.

(** Fit map to entire itinerary if active itinerary bounds changed. *)
Definition fitItinerary (newProps : Props) : M unit :=
  call (fitBounds (TargetBounds (propsItinBounds newProps)) paddingOptions).

(** Fit to itinerary leg if made active (clicked). *)
Definition fitActiveLeg (newProps : Props) : M unit :=
  it <- deref (itinerary newProps) ;;
  call (fitBounds
          (TargetBounds
             (Val (getLeafletLegBounds (index (legs it) (activeLeg newProps)))))
          paddingOptions).

(** If no itinerary update but from/to locations are present, fit to
    those; skipped on mobile. *)
Definition fitFromTo (newProps : Props) : M unit :=
  if negb isMobile then
    newFrom <- deref (propsFrom newProps) ;;
    newTo <- deref (propsTo newProps) ;;
    let bounds := L_bounds (lat newFrom, lon newFrom) (lat newTo, lon newTo) in
    bounds <- lift (extendBoundsByPlaces bounds_extend bounds
                      (propsIntermediate newProps)) ;;
    let '(leftX, bottomY) := getBottomLeft bounds in
    let '(rightX, topY) := getTopRight bounds in
    call (fitBounds (TargetCorners (leftX, bottomY) (rightX, topY))
            paddingOptions)
  else ret tt.

(** If only from or to is set, pan to that. *)
Definition panToPlace (place : nullable Place) : M unit :=
  p <- deref place ;;
  call (panTo (lat p, lon p)).

(** If intermediate place is added, extend bounds. *)
Definition fitIntermediate (newProps : Props) (map : MapHandle) : M unit :=
  let bounds := getBounds map in
  bounds <- lift (extendBoundsByPlaces latLngBounds_extend bounds
                    (propsIntermediate newProps)) ;;
  call (fitBounds (TargetBounds (Val bounds)) Undefined).

(** Pan to itinerary step if made active (clicked). *)
Definition panToStep (newProps : Props) : M unit :=
  it <- deref (itinerary newProps) ;;
  leg <- deref (index (legs it) (activeLeg newProps)) ;;
  step <- deref (index (steps leg) (activeStep newProps)) ;;
  call (panTo (step_lat step, step_lon step)).

(** ** [updateBounds]

    Both call sites pass [this.props] as [newProps], so [newProps || {}] is
    [newProps]. *)
Definition updateBounds (oldProps : nullable Props) (newProps : Props)
    : M unit :=
  let oldProps := orEmpty oldProps in
  (* Don't auto-fit if popup is active *)
  if popupActive oldProps newProps then ret tt
  else
    match leaflet_map (leaflet newProps) with
    | Val map =>
        if itineraryViewChanged oldProps newProps then
          _fitItineraryViewToMap newProps (propsItinBounds newProps) map
        else if itinBoundsChanged oldProps newProps then
          fitItinerary newProps
        else if legMadeActive oldProps newProps then
          fitActiveLeg newProps
        else if fromToPresentChanged oldProps newProps then
          fitFromTo newProps
        else if fromSet oldProps newProps then
          panToPlace (propsFrom newProps)
        else if toSet oldProps newProps then
          panToPlace (propsTo newProps)
        else if intermediateAdded oldProps newProps then
          fitIntermediate newProps map
        else if stepMadeActive oldProps newProps then
          panToStep newProps
        else ret tt
    | _ => ret tt
    end.

(** ** Lifecycle of the component *)

Definition componentDidMount (props : Props) : M unit :=
  updateBounds Null props.

Definition componentDidUpdate (prevProps props : Props) : M unit :=
  updateBounds (Val prevProps) props.

Definition componentWillUnmount : M unit := ret tt.

(** ** The timer queue

    [elapse dt] lets [dt] milliseconds pass: the clock advances and every
    timer that is due by then runs, in the order it was scheduled. *)
Fixpoint runTasks (ts : list Timer) : M unit :=
  match ts with
  | [] => ret tt
  | t :: ts' => runTask (callback t) ;;; runTasks ts'
  end.

Definition isDue (t0 : Z) (t : Timer) : bool := (due t <=? t0)%Z.

Definition elapse (dt : Z) : M unit :=
  fun w =>
    let t0 := (now w + dt)%Z in
    runTasks (filter (isDue t0) (timers w))
      {| now := t0;
         calls := calls w;
         timers := filter (fun t => negb (isDue t0 t)) (timers w) |}.

(** Whether [legs[activeLeg]] and [steps[activeStep]] both exist in the
    itinerary of the props. *)
Definition stepInRange (p : Props) : bool :=
  match itinerary p with
  | Val it =>
      match index (legs it) (activeLeg p) with
      | Val leg => truthy (index (steps leg) (activeStep p))
      | _ => false
      end
  | _ => false
  end.

Definition placeCoords (p : Place) : LatLng := (lat p, lon p).

(** The props of the first scenario: no itinerary, no popup, the given
    endpoints; the other fields are free. *)
Definition endpointProps (leg step : nullable Z) (view : nullable string)
    (f t : nullable Place) (ips : nullable (list (nullable Place)))
    (map : MapHandle) : Props :=
  {| activeLeg := leg; activeStep := step; itinerary := Null;
     itineraryView := view; popupLocation := Null;
     query := Val {| from := f; to := t; intermediatePlaces := ips |};
     leaflet := {| leaflet_map := Val map |} |}.

End Overlay.

Arguments TypeError {A}.

Notation "x <- m ;; k" := (bind m (fun x => k))
  (at level 61, m at next level, right associativity).
Notation "m ;;; k" := (bind m (fun _ => k))
  (at level 61, right associativity).

(** ** A concrete set of externals

    Modelled from the spec: the Leaflet bounds objects and the geometry
    helpers of [util/itinerary] are not part of the component's file.  A
    Region is a south-west / north-east corner pair or empty, two Regions
    are equal iff their corners are equal, a Region computed from zero
    points is empty, the Region of a leg is derived from its steps and the
    Region of an itinerary from all its legs; a coordinate pair is valid
    when it is finite and within [-90, 90] x [-180, 180]. *)
Definition Region : Type := option (LatLng * LatLng).

Definition numMin (x y : float) : float := if PrimFloat.ltb y x then y else x.

Definition numMax (x y : float) : float := if PrimFloat.ltb x y then y else x.

Definition regionExtend (r : Region) (p : LatLng) : Region :=
  match r with
  | None => Some (p, p)
  | Some ((s, w), (n, e)) =>
      Some ((numMin s (fst p), numMin w (snd p)),
            (numMax n (fst p), numMax e (snd p)))
  end.

Definition isEqualLatLng (p q : LatLng) : bool :=
  isEqualNumber (fst p) (fst q) && isEqualNumber (snd p) (snd q).

Definition regionEquals (a b : Region) : bool :=
  match a, b with
  | None, None => true
  | Some (sw1, ne1), Some (sw2, ne2) =>
      isEqualLatLng sw1 sw2 && isEqualLatLng ne1 ne2
  | _, _ => false
  end.

Definition regionOfPoints (ps : list LatLng) : Region :=
  fold_left regionExtend ps None.

Definition stepPoint (s : Step) : LatLng := (step_lat s, step_lon s).

Definition legPoints (l : Leg) : list LatLng := List.map stepPoint (steps l).

Definition legRegion (l : nullable Leg) : Region :=
  match l with
  | Val leg => regionOfPoints (legPoints leg)
  | _ => None
  end.

Definition itineraryRegion (it : Itinerary) : Region :=
  regionOfPoints (flat_map legPoints (legs it)).

Definition cornerBottomLeft (r : Region) : LatLng :=
  match r with
  | Some ((s, w), (n, e)) => (s, e)
  | None => (nan, nan)
  end.

Definition cornerTopRight (r : Region) : LatLng :=
  match r with
  | Some ((s, w), (n, e)) => (n, w)
  | None => (nan, nan)
  end.

Definition validLatLng (c : LatLng) : bool :=
  PrimFloat.leb (-90)%float (fst c) && PrimFloat.leb (fst c) 90%float &&
  PrimFloat.leb (-180)%float (snd c) && PrimFloat.leb (snd c) 180%float.

Definition specExternals (mobile : bool) : Externals :=
  {| LatLngBounds := Region;
     latLngBounds_equals := regionEquals;
     latLngBounds_extend := regionExtend;
     Bounds := Region;
     L_bounds := fun p q => regionExtend (regionExtend None p) q;
     bounds_extend := regionExtend;
     getBottomLeft := cornerBottomLeft;
     getTopRight := cornerTopRight;
     getLeafletItineraryBounds := itineraryRegion;
     getLeafletLegBounds := legRegion;
     isValidLatLng := validLatLng;
     isMobile := mobile |}.

(** ** Concrete props used to exercise the statements *)

Definition desktop : Externals := specExternals false.

Definition mobile : Externals := specExternals true.

Definition placeA : Place :=
  {| lat := 47.6%float; lon := (-122.3)%float; name := "A" |}.

Definition placeB : Place :=
  {| lat := 47.61%float; lon := (-122.33)%float; name := "B" |}.

Definition displayed : Region :=
  Some ((47%float, (-123)%float), (48%float, (-122)%float)).

Definition mapOf (e : Externals) (b : @LatLngBounds e) : @MapHandle e :=
  {| getBounds := b |}.

Definition theMap (e : Externals) (b : @LatLngBounds e) : @LeafletContext e :=
  {| leaflet_map := Val (mapOf e b) |}.

Definition mkQuery (f t : nullable Place) : nullable Query :=
  Val {| from := f; to := t; intermediatePlaces := Val [] |}.

Definition legOf (ps : list LatLng) : Leg :=
  {| steps := List.map (fun p => {| step_lat := fst p; step_lon := snd p |}) ps |}.

Definition itinA : Itinerary :=
  {| legs := [legOf [(47.6%float, (-122.3)%float); (47.61%float, (-122.33)%float)]] |}.

Definition itinB : Itinerary :=
  {| legs := [legOf [(47.6%float, (-122.3)%float); (47.65%float, (-122.35)%float)];
              legOf [(47.65%float, (-122.35)%float); (47.7%float, (-122.4)%float)]] |}.

(** Props over the spec-modelled externals, on either platform. *)
Definition mkProps (e : Externals) (b : @LatLngBounds e)
    (leg step : nullable Z) (it : nullable Itinerary)
    (view : nullable string) (popup : nullable Place) (q : nullable Query)
    : @Props e :=
  {| activeLeg := leg; activeStep := step; itinerary := it;
     itineraryView := view; popupLocation := popup; query := q;
     leaflet := theMap e b |}.

Definition placeC : Place :=
  {| lat := 47.7%float; lon := (-122.4)%float; name := "C" |}.

(** A place whose latitude is out of range. *)
Definition placeOff : Place :=
  {| lat := 95%float; lon := 0%float; name := "off" |}.

Definition mkQueryVia (f t : nullable Place)
    (ips : nullable (list (nullable Place))) : nullable Query :=
  Val {| from := f; to := t; intermediatePlaces := ips |}.

Definition itinC : Itinerary :=
  {| legs := [legOf [(47.6%float, (-122.3)%float); (47.62%float, (-122.31)%float)];
              legOf [(47.62%float, (-122.31)%float); (47.65%float, (-122.35)%float)];
              legOf [(47.65%float, (-122.35)%float); (47.7%float, (-122.4)%float)]] |}.

(** Props without a map handle yet. *)
Definition unmappedProps (e : Externals) (it : nullable Itinerary)
    (view : nullable string) (q : nullable Query) : @Props e :=
  {| activeLeg := Null; activeStep := Null; itinerary := it;
     itineraryView := view; popupLocation := Null; query := q;
     leaflet := {| leaflet_map := Null |} |}.


(** Props of the further scenarios. *)
Definition propsLeg (leg step : nullable Z) : @Props desktop :=
  mkProps desktop displayed leg step (Val itinC) Null Null
    (mkQuery (Val placeA) (Val placeC)).

Definition propsVia (f t : nullable Place)
    (ips : nullable (list (nullable Place))) : @Props desktop :=
  mkProps desktop displayed Null Null Null Null Null (mkQueryVia f t ips).

Definition propsItin (it : Itinerary) (f t : nullable Place) : @Props desktop :=
  mkProps desktop displayed Null Null (Val it) Null Null (mkQuery f t).

Definition propsView (view : nullable string) : @Props desktop :=
  mkProps desktop displayed Null Null Null view Null
    (mkQuery (Val placeA) (Val placeB)).

Definition world0 {ext : Externals} : World :=
  {| now := 0; calls := []; timers := [] |}.

(** ** The places an update takes into account *)

Section Places.

Context {ext : Externals}.

(** The coordinates [extendBoundsByPlaces] hands to [extend], in order:
    those of the places that are not null and pass [isValidLatLng]; none
    when [places] is not an array. *)
Definition validCoords (places : nullable (list (nullable Place)))
    : list LatLng :=
  match places with
  | Val ps => filter isValidLatLng (List.map placeCoords (filterTruthy ps))
  | _ => []
  end.

(** The guards before the step branch are all false. *)
Definition beforeStep (oldProps newProps : Props) : bool :=
  negb (popupActive oldProps newProps) &&
  negb (itineraryViewChanged oldProps newProps) &&
  negb (itinBoundsChanged oldProps newProps) &&
  negb (legMadeActive oldProps newProps) &&
  negb (fromToPresentChanged oldProps newProps) &&
  negb (fromSet oldProps newProps) &&
  negb (toSet oldProps newProps) &&
  negb (intermediateAdded oldProps newProps).


(** The intermediate-places branch is the one taken: every guard before
    it is false and its own holds. *)
Definition intermediateBranch (oldProps newProps : Props) : bool :=
  negb (popupActive oldProps newProps) &&
  truthy (leaflet_map (leaflet newProps)) &&
  negb (itineraryViewChanged oldProps newProps) &&
  negb (itinBoundsChanged oldProps newProps) &&
  negb (legMadeActive oldProps newProps) &&
  negb (fromToPresentChanged oldProps newProps) &&
  negb (fromSet oldProps newProps) &&
  negb (toSet oldProps newProps) &&
  intermediateAdded oldProps newProps.

End Places.

(** * The results header of the mobile screen

    [ResultsHeader] of [lib/components/mobile/results-header.js]: the text
    of the navigation bar and the [resultCount] prop that [mapStateToProps]
    derives.  The selectors of [util/state] are outside the file: what they
    return ([activeSearch], the active itineraries, the responses with
    errors) is an argument. *)
Module ResultsHeader.

(** A number used as a condition: [null], [undefined] and [0] are falsy. *)
Definition truthyNumber (v : nullable Z) : bool :=
  match v with
  | Val z => negb (z =? 0)%Z
  | _ => false
  end.

(** [`${n}`] for an integer. *)
Definition numberToString (z : Z) : string :=
  NilZero.string_of_int (Z.to_int z).

(** The [headerText] of [render]; [errors.length] is read only when
    [resultCount === 0]. *)
Definition headerText {A} (errors : list A) (resultCount : nullable Z)
    : string :=
  let hasNoResult :=
    strictEq Z.eqb resultCount (Val 0%Z) && (0 <? List.length errors)%nat in
  if hasNoResult then "No Trip Found"
  else
    match resultCount with
    | Val n =>
        if negb (n =? 0)%Z then
          "We Found " ++ numberToString n ++ " Option" ++
          (if (1 <? n)%Z then "s" else "")
        else "Waiting..."
    | _ => "Waiting..."
    end.

(** The active search as far as [mapStateToProps] reads it. *)
Record Search (R : Type) := {
  response : nullable R;
  nonRealtimeResponse : nullable R
}.

(** [response] of [mapStateToProps]. *)
Definition activeResponse {R} (activeSearch : nullable (Search R))
    (useRealtime : bool) : nullable R :=
  match activeSearch with
  | Val search =>
      if useRealtime then response search else nonRealtimeResponse search
  | _ => Null
  end.

(** [resultCount] of [mapStateToProps]: [response ? itineraries.length :
    null]. *)
Definition resultCount {R I} (activeSearch : nullable (Search R))
    (useRealtime : bool) (itineraries : list I) : nullable Z :=
  if truthy (activeResponse activeSearch useRealtime)
  then Val (Z.of_nat (List.length itineraries))
  else Null.

End ResultsHeader.

(** * The mobile results screen

    [MobileResultsScreen] of [lib/components/mobile/results-screen.js]: its
    [expanded] state with the narrative container it scrolls, and the dots
    of [renderDots]. *)
Module MobileResultsScreen.

(** The instance: [this.state.expanded], and the [scrollTop] of
    [this.refs['narrative-container']], which is [undefined] while the
    container is not rendered. *)
Record Instance := {
  expanded : bool;
  container : nullable Z
}.

(** The constructor sets [expanded: false]. *)
Definition constructor (c : nullable Z) : Instance :=
  {| expanded := false; container := c |}.

(** [_setExpanded]: sets the state, then resets the container's scroll
    position; assigning [scrollTop] on a missing ref raises. *)
Definition _setExpanded (e : bool) (this : Instance) : result Instance :=
  match container this with
  | Val _ => Ok {| expanded := e; container := Val 0%Z |}
  | _ => TypeError
  end.

Definition _optionClicked (this : Instance) : result Instance :=
  _setExpanded (negb (expanded this)) this.

(** [componentDidUpdate]: check if the active leg changed. *)
Definition componentDidUpdate (prevActiveLeg activeLeg : nullable Z)
    (this : Instance) : result Instance :=
  if negb (strictEq Z.eqb activeLeg prevActiveLeg)
  then _setExpanded false this
  else Ok this.

(** The [className] of the dot of index [i]. *)
Definition dotClass (activeItineraryIndex : nullable Z) (i : Z) : string :=
  "dot" ++ (if strictEq Z.eqb activeItineraryIndex (Val i)
            then " active" else "").

(** [renderDots]: one dot per [i] from 0 while [i < resultCount]; the
    comparison is false for [null] and [undefined]. *)
Definition renderDots (activeItineraryIndex resultCount : nullable Z)
    : list string :=
  match resultCount with
  | Val n =>
      List.map (fun i => dotClass activeItineraryIndex (Z.of_nat i))
        (seq 0 (Z.to_nat n))
  | _ => []
  end.

(** The props the instance reads: [activeLeg], and [error], which decides
    what [render] shows. *)
Record ScreenProps := {
  screenActiveLeg : nullable Z;
  screenError : nullable string
}.

(** What [render] does to the ref: with an error only [ResultsError] is
    rendered; without one the option header, the narrative container (the
    ref) and the carousel are.  A container that was not there before is
    a new element, scrolled to the top; one that was there is kept. *)
Definition render (p : ScreenProps) (this : Instance) : Instance :=
  {| expanded := expanded this;
     container :=
       if truthy (screenError p) then Undefined
       else match container this with
            | Val top => Val top
            | _ => Val 0%Z
            end |}.

(** A mounted component: the props of its last render and the instance. *)
Record Mounted := {
  props : ScreenProps;
  instance : Instance
}.

Definition mount (p : ScreenProps) : Mounted :=
  {| props := p; instance := render p (constructor Undefined) |}.

(** What can happen to a mounted component: a click on the option header
    or the carousel, the user scrolling the container, new props. *)
Inductive Event :=
| Click
| Scroll (top : Z)
| Receive (p : ScreenProps).

(** A click reaches [_optionClicked] only while its targets are rendered,
    that is without an error; the state change renders again.  New props
    are rendered before [componentDidUpdate] runs with the previous
    ones. *)
Definition deliver (e : Event) (m : Mounted) : result Mounted :=
  match e with
  | Click =>
      if truthy (screenError (props m)) then Ok m
      else
        match _optionClicked (instance m) with
        | Ok i => Ok {| props := props m; instance := render (props m) i |}
        | TypeError => TypeError
        end
  | Scroll top =>
      Ok {| props := props m;
            instance :=
              {| expanded := expanded (instance m);
                 container := match container (instance m) with
                              | Val _ => Val top
                              | c => c
                              end |} |}
  | Receive p =>
      match componentDidUpdate (screenActiveLeg (props m)) (screenActiveLeg p)
              (render p (instance m)) with
      | Ok i => Ok {| props := p; instance := render p i |}
      | TypeError => TypeError
      end
  end.

Fixpoint run (es : list Event) (m : Mounted) : result Mounted :=
  match es with
  | [] => Ok m
  | e :: es' =>
      match deliver e m with
      | Ok m' => run es' m'
      | TypeError => TypeError
      end
  end.

End MobileResultsScreen.

(** The spec-modelled validity check rejects non-finite and out-of-range
    coordinates. *)
Example validLatLng_rejects :
  validLatLng (nan, 0%float) = false /\
  validLatLng (infinity, 0%float) = false /\
  validLatLng (0%float, neg_infinity) = false /\
  validLatLng (91%float, 0%float) = false /\
  validLatLng (0%float, (-181)%float) = false /\
  validLatLng (47.6%float, (-122.3)%float) = true.
Proof. repeat split. Qed.

(** ** Equality facts *)

Lemma isEqualNumber_refl (x : float) : isEqualNumber x x = true.
Proof. unfold isEqualNumber. destruct (PrimFloat.eqb x x); reflexivity. Qed.

Lemma isEqualPlace_refl (p : Place) : isEqualPlace p p = true.
Proof.
  unfold isEqualPlace.
  now rewrite !isEqualNumber_refl, String.eqb_refl.
Qed.

Lemma isEqualNullable_refl {A} (eq : A -> A -> bool) :
  (forall a, eq a a = true) -> forall v, isEqualNullable eq v v = true.
Proof. intros Heq [ | | a]; simpl; auto. Qed.

Lemma isEqualArray_refl {A} (eq : A -> A -> bool) :
  (forall a, eq a a = true) -> forall l, isEqualArray eq l l = true.
Proof.
  intros Heq l. induction l as [ | a l IH]; simpl; [reflexivity | ].
  now rewrite Heq, IH.
Qed.

Lemma strictEq_refl {A} (eqb : A -> A -> bool) :
  (forall a, eqb a a = true) -> forall v, strictEq eqb v v = true.
Proof. intros Heq [ | | a]; simpl; auto. Qed.

Lemma regionEquals_refl (r : Region) : regionEquals r r = true.
Proof.
  destruct r as [[[s w] [n e]] | ]; simpl; [ | reflexivity].
  unfold isEqualLatLng; simpl. now rewrite !isEqualNumber_refl.
Qed.

Section OverlayFacts.

Context {ext : Externals}.

Implicit Types (oldProps : nullable Props) (newProps : Props) (w : World).

Lemma fromChanged_same (p : Props) : fromChanged p p = false.
Proof.
  unfold fromChanged.
  now rewrite (isEqualNullable_refl _ isEqualPlace_refl).
Qed.

Lemma toChanged_same (p : Props) : toChanged p p = false.
Proof.
  unfold toChanged.
  now rewrite (isEqualNullable_refl _ isEqualPlace_refl).
Qed.

Lemma intermediateChanged_same (p : Props) : intermediateChanged p p = false.
Proof.
  unfold intermediateChanged.
  rewrite isEqualNullable_refl; [reflexivity | ].
  apply isEqualArray_refl, isEqualNullable_refl, isEqualPlace_refl.
Qed.

Lemma itineraryViewChanged_same (p : Props) : itineraryViewChanged p p = false.
Proof.
  unfold itineraryViewChanged.
  now rewrite (strictEq_refl _ String.eqb_refl).
Qed.

Lemma itinBoundsChanged_same (p : Props) :
  (forall b, latLngBounds_equals b b = true) ->
  itinBoundsChanged p p = false.
Proof.
  intros Hrefl. unfold itinBoundsChanged; cbv zeta.
  destruct (propsItinBounds p) as [ | | b]; simpl; try reflexivity.
  now rewrite Hrefl.
Qed.

(** C1: when the previous or the current props carry a popup location,
    [updateBounds] returns at once: no map primitive is called and nothing
    is scheduled, whatever else changed. *)
Theorem popup_suppresses_update oldProps newProps w :
  truthy (popupLocation (orEmpty oldProps)) = true \/
  truthy (popupLocation newProps) = true ->
  updateBounds oldProps newProps w = Ok (tt, w).
Proof.
  intros Hpopup. unfold updateBounds; cbv zeta.
  replace (popupActive (orEmpty oldProps) newProps) with true; [reflexivity | ].
  unfold popupActive. destruct Hpopup as [H | H]; rewrite H;
    [reflexivity | now rewrite orb_true_r].
Qed.

(** C5: with the previous props equal to the current ones, no guard of the
    ladder holds and [updateBounds] does nothing (bounds equality being
    reflexive, as value equality of the corners is). *)
Theorem unchanged_props_noop (props : Props) w :
  (forall b, latLngBounds_equals b b = true) ->
  updateBounds (Val props) props w = Ok (tt, w).
Proof.
  intros Hrefl. unfold updateBounds; cbv zeta.
  change (orEmpty (Val props)) with props.
  destruct (popupActive props props); [reflexivity | ].
  destruct (leaflet_map (leaflet props)) as [ | | map]; try reflexivity.
  rewrite itineraryViewChanged_same, (itinBoundsChanged_same _ Hrefl).
  unfold legMadeActive, fromToPresentChanged, fromSet, toSet,
    intermediateAdded, stepMadeActive.
  rewrite fromChanged_same, toChanged_same, intermediateChanged_same.
  rewrite !(strictEq_refl _ Z.eqb_refl).
  now rewrite !andb_false_r.
Qed.

(** C2: with no popup, a map handle and an unchanged itinerary view, an
    itinerary whose bounds differ from the previous one's, or that appears
    where there was none, makes [updateBounds] call [fitBounds] on the
    current itinerary's bounds with [{padding: BOUNDS_PADDING}], whatever
    happened to [from] and [to] in the same update. *)
Theorem itinerary_bounds_change_fits oldProps newProps (map : MapHandle)
    (it : Itinerary) w :
  popupActive (orEmpty oldProps) newProps = false ->
  leaflet_map (leaflet newProps) = Val map ->
  itineraryViewChanged (orEmpty oldProps) newProps = false ->
  itinerary newProps = Val it ->
  (truthy (itinerary (orEmpty oldProps)) = false \/
   exists itA, itinerary (orEmpty oldProps) = Val itA /\
     latLngBounds_equals (getLeafletItineraryBounds itA)
       (getLeafletItineraryBounds it) = false) ->
  updateBounds oldProps newProps w =
    Ok (tt, emit (fitBounds (TargetBounds (Val (getLeafletItineraryBounds it)))
                    paddingOptions) w) /\
  paddingOption paddingOptions = Some BOUNDS_PADDING.
Proof.
  intros Hpopup Hmap Hview Hit Hdiff. split; [ | reflexivity].
  unfold updateBounds; cbv zeta. rewrite Hpopup, Hmap, Hview.
  assert (Hchanged : itinBoundsChanged (orEmpty oldProps) newProps = true).
  { unfold itinBoundsChanged, propsItinBounds; cbv zeta. rewrite Hit; simpl.
    destruct Hdiff as [Hnone | (itA & HitA & Hneq)].
    - destruct (itinerary (orEmpty oldProps)); simpl in *;
        [reflexivity | reflexivity | discriminate].
    - rewrite HitA; simpl. now rewrite Hneq. }
  rewrite Hchanged. unfold fitItinerary, propsItinBounds. rewrite Hit.
  reflexivity.
Qed.

(** C7: on a mobile platform, when the itinerary-view, itinerary-bounds and
    active-leg branches are not taken, [from] and [to] are both set and
    both changed, [updateBounds] enters the from/to branch and does
    nothing there: no fit, no pan, nothing scheduled. *)
Theorem mobile_from_to_change_noop oldProps newProps w :
  isMobile = true ->
  itineraryViewChanged (orEmpty oldProps) newProps = false ->
  itinBoundsChanged (orEmpty oldProps) newProps = false ->
  legMadeActive (orEmpty oldProps) newProps = false ->
  truthy (propsFrom newProps) = true ->
  truthy (propsTo newProps) = true ->
  fromChanged (orEmpty oldProps) newProps = true ->
  toChanged (orEmpty oldProps) newProps = true ->
  fromToPresentChanged (orEmpty oldProps) newProps = true /\
  updateBounds oldProps newProps w = Ok (tt, w).
Proof.
  intros Hmobile Hview Hitin Hleg Hfrom Hto HfromCh HtoCh.
  assert (Hguard : fromToPresentChanged (orEmpty oldProps) newProps = true).
  { unfold fromToPresentChanged. now rewrite Hfrom, Hto, HfromCh. }
  split; [exact Hguard | ].
  unfold updateBounds; cbv zeta.
  destruct (popupActive (orEmpty oldProps) newProps); [reflexivity | ].
  destruct (leaflet_map (leaflet newProps)) as [ | | map]; try reflexivity.
  rewrite Hview, Hitin, Hleg, Hguard.
  unfold fitFromTo. now rewrite Hmobile.
Qed.

Lemma one_endpoint_pans oldProps newProps (map : MapHandle) (p : Place) w :
  popupActive (orEmpty oldProps) newProps = false ->
  leaflet_map (leaflet newProps) = Val map ->
  itineraryViewChanged (orEmpty oldProps) newProps = false ->
  itinBoundsChanged (orEmpty oldProps) newProps = false ->
  legMadeActive (orEmpty oldProps) newProps = false ->
  fromToPresentChanged (orEmpty oldProps) newProps = false ->
  (fromChanged (orEmpty oldProps) newProps = true /\
   toChanged (orEmpty oldProps) newProps = false /\
   propsFrom newProps = Val p) \/
  (fromChanged (orEmpty oldProps) newProps = false /\
   toChanged (orEmpty oldProps) newProps = true /\
   propsTo newProps = Val p) ->
  updateBounds oldProps newProps w = Ok (tt, emit (panTo (lat p, lon p)) w).
Proof.
  intros Hpopup Hmap Hview Hitin Hleg Hboth Hone.
  unfold updateBounds; cbv zeta.
  rewrite Hpopup, Hmap, Hview, Hitin, Hleg, Hboth.
  unfold fromSet, toSet.
  destruct Hone as [(HfromCh & HtoCh & Hp) | (HfromCh & HtoCh & Hp)];
    rewrite HfromCh, HtoCh, Hp; simpl.
  - reflexivity.
  - rewrite andb_false_r. reflexivity.
Qed.

(** C8: when none of the first five branches is taken and exactly one of
    [from] and [to] changed, to a place, [updateBounds] pans the map to
    that place; in particular from [{from: null, to: null, itinerary:
    null}] to [{from: (47.6, -122.3), to: null, itinerary: null}] the map
    is panned to (47.6, -122.3), on any platform and whatever the other
    fields hold. *)
Theorem single_endpoint_change_pans :
  (forall oldProps newProps (map : MapHandle) (p : Place) w,
     popupActive (orEmpty oldProps) newProps = false ->
     leaflet_map (leaflet newProps) = Val map ->
     itineraryViewChanged (orEmpty oldProps) newProps = false ->
     itinBoundsChanged (orEmpty oldProps) newProps = false ->
     legMadeActive (orEmpty oldProps) newProps = false ->
     fromToPresentChanged (orEmpty oldProps) newProps = false ->
     (fromChanged (orEmpty oldProps) newProps = true /\
      toChanged (orEmpty oldProps) newProps = false /\
      propsFrom newProps = Val p) \/
     (fromChanged (orEmpty oldProps) newProps = false /\
      toChanged (orEmpty oldProps) newProps = true /\
      propsTo newProps = Val p) ->
     updateBounds oldProps newProps w =
       Ok (tt, emit (panTo (lat p, lon p)) w)) /\
  (forall (leg step leg' step' : nullable Z) (view : nullable string)
          (ips ips' : nullable (list (nullable Place))) (map map' : MapHandle)
          (label : string) w,
     updateBounds
       (Val (endpointProps leg step view Null Null ips map))
       (endpointProps leg' step' view
          (Val {| lat := 47.6%float; lon := (-122.3)%float; name := label |})
          Null ips' map') w =
       Ok (tt, emit (panTo (47.6%float, (-122.3)%float)) w)).
Proof.
  split; [exact one_endpoint_pans | ].
  intros leg step leg' step' view ips ips' map map' label w.
  apply one_endpoint_pans with
    (map := map')
    (p := {| lat := 47.6%float; lon := (-122.3)%float; name := label |});
    try reflexivity.
  - unfold itineraryViewChanged; simpl.
    now rewrite (strictEq_refl _ String.eqb_refl).
  - left. repeat split.
Qed.

(** C9: when the previous props have an itinerary and the current ones
    have none (no popup, itinerary view unchanged), the itinerary-bounds
    guard is false, and so are the leg and step guards, which need an
    itinerary: [updateBounds] does what the endpoint and
    intermediate-place branches decide. *)
Theorem itinerary_removed_no_refit oldProps newProps (itA : Itinerary) w :
  popupActive (orEmpty oldProps) newProps = false ->
  itineraryViewChanged (orEmpty oldProps) newProps = false ->
  itinerary (orEmpty oldProps) = Val itA ->
  truthy (itinerary newProps) = false ->
  itinBoundsChanged (orEmpty oldProps) newProps = false /\
  legMadeActive (orEmpty oldProps) newProps = false /\
  stepMadeActive (orEmpty oldProps) newProps = false /\
  updateBounds oldProps newProps w =
    match leaflet_map (leaflet newProps) with
    | Val map =>
        (if fromToPresentChanged (orEmpty oldProps) newProps then
           fitFromTo newProps
         else if fromSet (orEmpty oldProps) newProps then
           panToPlace (propsFrom newProps)
         else if toSet (orEmpty oldProps) newProps then
           panToPlace (propsTo newProps)
         else if intermediateAdded (orEmpty oldProps) newProps then
           fitIntermediate newProps map
         else ret tt) w
    | _ => Ok (tt, w)
    end.
Proof.
  intros Hpopup Hview Hold Hnew.
  assert (Hitin : itinBoundsChanged (orEmpty oldProps) newProps = false).
  { unfold itinBoundsChanged, propsItinBounds; cbv zeta.
    destruct (itinerary newProps); simpl in Hnew; try discriminate;
      rewrite Hold; reflexivity. }
  assert (Hleg : legMadeActive (orEmpty oldProps) newProps = false).
  { unfold legMadeActive. now rewrite Hnew. }
  assert (Hstep : stepMadeActive (orEmpty oldProps) newProps = false).
  { unfold stepMadeActive. now rewrite Hnew. }
  repeat split; try assumption.
  unfold updateBounds; cbv zeta. rewrite Hpopup.
  destruct (leaflet_map (leaflet newProps)) as [ | | map]; try reflexivity.
  now rewrite Hview, Hitin, Hleg, Hstep.
Qed.

(** ** The timer queue and the deferred task *)

Lemma bind_ret_tt (m : M unit) w : (m ;;; ret tt) w = m w.
Proof.
  unfold bind, ret. destruct (m w) as [[[] w'] | ]; reflexivity.
Qed.

Lemma runTasks_app (l1 l2 : list Timer) w :
  runTasks (l1 ++ l2) w = (runTasks l1 ;;; runTasks l2) w.
Proof.
  revert w. induction l1 as [ | t l1 IH]; intros w; simpl.
  - reflexivity.
  - unfold bind.
    destruct (runTask (callback t) w) as [[u w'] | ]; [ | reflexivity].
    rewrite IH. reflexivity.
Qed.

(** A task scheduled with the 250 ms delay runs once 250 ms or more have
    elapsed, after the timers that were pending before it. *)
Lemma elapse_schedule (t : Task) (dt : Z) w :
  (250 <= dt)%Z ->
  elapse dt (schedule t 250 w) = (elapse dt ;;; runTask t) w.
Proof.
  intros Hdt. unfold elapse at 1; cbv zeta. simpl now; simpl timers.
  rewrite !filter_app; simpl filter.
  assert (Hdue : isDue (now w + dt)
                   {| callback := t; due := (now w + 250)%Z |} = true).
  { unfold isDue; simpl. apply Z.leb_le. lia. }
  rewrite Hdue; simpl negb; cbv iota.
  rewrite app_nil_r, runTasks_app.
  unfold bind, elapse; cbv zeta. simpl calls.
  match goal with |- match ?r with _ => _ end = _ => destruct r as [[u w'] | ] end;
    [ | reflexivity].
  simpl runTasks. apply bind_ret_tt.
Qed.

(** Before its delay has elapsed a scheduled task stays pending and makes
    no call. *)
Lemma elapse_early (t : Task) (dt : Z) w :
  timers w = [] -> (dt < 250)%Z ->
  elapse dt (schedule t 250 w) =
    Ok (tt, {| now := (now w + dt)%Z; calls := calls w;
               timers := [{| callback := t; due := (now w + 250)%Z |}] |}).
Proof.
  intros Hnone Hdt. unfold elapse; cbv zeta. simpl now; simpl timers.
  rewrite Hnone; simpl app; simpl filter.
  assert (Hdue : isDue (now w + dt)
                   {| callback := t; due := (now w + 250)%Z |} = false).
  { unfold isDue; simpl. apply Z.leb_gt. lia. }
  rewrite Hdue. reflexivity.
Qed.

(** The deferred task begins with [invalidateSize(true)], never raises, and
    makes no other call when the props it closed over have no itinerary. *)
Lemma runTask_invalidates (newProps : Props) (bounds : nullable LatLngBounds)
    (map : MapHandle) w :
  exists cs,
    runTask (FitItineraryView newProps bounds map) w =
      Ok (tt, {| now := now w;
                 calls := calls w ++ invalidateSize true :: cs;
                 timers := timers w |}) /\
    (truthy (itinerary newProps) = false -> cs = []).
Proof.
  unfold runTask, bind, call, emit; simpl.
  destruct (itinerary newProps) as [ | | it]; simpl;
    try (exists []; split; [reflexivity | reflexivity]).
  destruct (notNull (activeLeg newProps)); simpl; rewrite <- app_assoc;
    eexists; (split; [reflexivity | discriminate]).
Qed.

Lemma runTasks_calls (l : list Timer) :
  forall w, exists cs,
    runTasks l w =
      Ok (tt, {| now := now w; calls := calls w ++ cs; timers := timers w |}).
Proof.
  induction l as [ | [[newProps bounds map] d] l IH]; intros w.
  - exists []. simpl. rewrite app_nil_r. now destruct w.
  - destruct (runTask_invalidates newProps bounds map w) as (cs & Hrun & _).
    cbn [runTasks callback]. unfold bind. rewrite Hrun.
    destruct (IH {| now := now w;
                    calls := calls w ++ invalidateSize true :: cs;
                    timers := timers w |}) as (cs' & Hrest).
    rewrite Hrest. simpl. rewrite <- app_assoc. eauto.
Qed.

(** Letting time pass never raises and only adds calls. *)
Lemma elapse_calls (dt : Z) w :
  exists cs w',
    elapse dt w = Ok (tt, w') /\
    calls w' = calls w ++ cs /\
    now w' = (now w + dt)%Z.
Proof.
  unfold elapse; cbv zeta.
  match goal with
  | |- context [runTasks ?l ?w0] => destruct (runTasks_calls l w0) as (cs & Hrun)
  end.
  rewrite Hrun. exists cs. eexists. split; [reflexivity | ].
  split; reflexivity.
Qed.

Lemma view_change_schedules oldProps newProps (map : MapHandle) w :
  popupActive (orEmpty oldProps) newProps = false ->
  leaflet_map (leaflet newProps) = Val map ->
  itineraryViewChanged (orEmpty oldProps) newProps = true ->
  updateBounds oldProps newProps w =
    Ok (tt, schedule (FitItineraryView newProps (propsItinBounds newProps) map)
              250 w).
Proof.
  intros Hpopup Hmap Hview. unfold updateBounds; cbv zeta.
  now rewrite Hpopup, Hmap, Hview.
Qed.

(** C10: when the itinerary view differs between the props (no popup, a map
    handle), [updateBounds] makes no call itself and schedules one task
    250 ms ahead; once that delay has elapsed the task runs, and whenever
    it runs its first call is [invalidateSize(true)] -- its only call when
    there is no itinerary. *)
Theorem view_change_task_invalidates oldProps newProps (map : MapHandle) w :
  popupActive (orEmpty oldProps) newProps = false ->
  leaflet_map (leaflet newProps) = Val map ->
  itineraryViewChanged (orEmpty oldProps) newProps = true ->
  let task := FitItineraryView newProps (propsItinBounds newProps) map in
  updateBounds oldProps newProps w = Ok (tt, schedule task 250 w) /\
  (forall dt, (250 <= dt)%Z ->
     exists earlier cs w',
       elapse dt (schedule task 250 w) = Ok (tt, w') /\
       calls w' = calls w ++ earlier ++ invalidateSize true :: cs /\
       (truthy (itinerary newProps) = false -> cs = [])) /\
  (forall w', exists cs,
     runTask task w' =
       Ok (tt, {| now := now w';
                  calls := calls w' ++ invalidateSize true :: cs;
                  timers := timers w' |}) /\
     (truthy (itinerary newProps) = false -> cs = [])).
Proof.
  intros Hpopup Hmap Hview task. split; [ | split].
  - now apply view_change_schedules.
  - intros dt Hdt. rewrite elapse_schedule by exact Hdt.
    destruct (elapse_calls dt w) as (earlier & w1 & Hrun & Hcalls & _).
    destruct (runTask_invalidates newProps (propsItinBounds newProps) map w1)
      as (cs & Htask & Hnone).
    exists earlier, cs. eexists. unfold bind. rewrite Hrun.
    split; [exact Htask | ]. split; [ | exact Hnone].
    simpl. rewrite Hcalls. now rewrite <- app_assoc.
  - intros w'. apply runTask_invalidates.
Qed.

(** C3, as the code has it: the timer made by a change of itinerary view is
    appended to the pending ones and its handle is dropped;
    [componentWillUnmount] does nothing, so nothing is cancelled on
    teardown or by a later change of view: the task stays pending until
    its 250 ms have elapsed and then runs, after the earlier pending ones,
    whether or not the component was unmounted in between. *)
Theorem deferred_fit_never_cancelled oldProps newProps (map : MapHandle) w :
  popupActive (orEmpty oldProps) newProps = false ->
  leaflet_map (leaflet newProps) = Val map ->
  itineraryViewChanged (orEmpty oldProps) newProps = true ->
  let task := FitItineraryView newProps (propsItinBounds newProps) map in
  (forall w', componentWillUnmount w' = Ok (tt, w')) /\
  (exists w', updateBounds oldProps newProps w = Ok (tt, w') /\
     calls w' = calls w /\
     timers w' = timers w ++ [{| callback := task; due := (now w + 250)%Z |}]) /\
  (forall dt, (250 <= dt)%Z ->
     (updateBounds oldProps newProps ;;; componentWillUnmount ;;; elapse dt) w =
     (elapse dt ;;; runTask task) w).
Proof.
  intros Hpopup Hmap Hview task. split; [ | split].
  - reflexivity.
  - eexists. split; [exact (view_change_schedules _ _ w Hpopup Hmap Hview) | ].
    split; reflexivity.
  - intros dt Hdt. unfold bind at 1.
    rewrite (view_change_schedules _ _ _ Hpopup Hmap Hview).
    unfold bind at 1, componentWillUnmount, ret.
    now apply elapse_schedule.
Qed.

(** ** Invalid places and raised errors *)

Lemma fold_extend_valid {B} (extend : B -> LatLng -> B) (l : list Place) :
  forall b,
    fold_left
      (fun b place =>
         let coords := (lat place, lon place) in
         if isValidLatLng coords then extend b coords else b) l b =
    fold_left extend (filter isValidLatLng (List.map placeCoords l)) b.
Proof.
  induction l as [ | p l IH]; intros b; simpl; [reflexivity | ].
  unfold placeCoords at 1.
  destruct (isValidLatLng (lat p, lon p)); simpl; apply IH.
Qed.

Lemma filter_none {A} (f : A -> bool) (l : list A) :
  (forall a, In a l -> f a = false) -> filter f l = [].
Proof.
  induction l as [ | a l IH]; intros Hall; simpl; [reflexivity | ].
  rewrite (Hall a (or_introl eq_refl)). apply IH.
  intros a' Ha'. apply Hall. now right.
Qed.

Lemma In_filterTruthy {A} (a : A) (l : list (nullable A)) :
  In a (filterTruthy l) -> In (Val a) l.
Proof.
  induction l as [ | [ | | x] l IH]; simpl; intros Hin; auto.
  destruct Hin as [-> | Hin]; auto.
Qed.

Lemma extendBoundsByPlaces_valid {B} (extend : B -> LatLng -> B) (b : B)
    (ps : list (nullable Place)) :
  extendBoundsByPlaces extend b (Val ps) =
    Ok (fold_left extend
          (filter isValidLatLng (List.map placeCoords (filterTruthy ps))) b).
Proof. unfold extendBoundsByPlaces. now rewrite fold_extend_valid. Qed.

Lemma truthy_Val {A} (v : nullable A) :
  truthy v = true -> exists a, v = Val a.
Proof. destruct v; simpl; try discriminate. eauto. Qed.





(** ** The options of the fits made at once *)

Ltac returned H :=
  unfold ret in H; injection H as <-; left; reflexivity.

Ltac called H :=
  right; eexists; split;
  [ injection H as <-; reflexivity
  | intros target o Hc; injection Hc as _ <-; auto ].

(** Every [fitBounds] that [updateBounds] calls itself carries
    [{padding: BOUNDS_PADDING}], except the one of the intermediate-places
    branch, which has no options. *)
Lemma immediate_fit_options oldProps newProps w w' :
  updateBounds oldProps newProps w = Ok (tt, w') ->
  calls w' = calls w \/
  exists c, calls w' = calls w ++ [c] /\
    forall target o, c = fitBounds target o ->
      o = paddingOptions \/
      (o = Undefined /\ intermediateAdded (orEmpty oldProps) newProps = true).
Proof.
  unfold updateBounds; cbv zeta. intros H.
  destruct (popupActive _ _); [returned H | ].
  destruct (leaflet_map (leaflet newProps)) as [ | | map];
    try (returned H).
  destruct (itineraryViewChanged _ _).
  { unfold _fitItineraryViewToMap, setTimeout in H. injection H as <-.
    left. reflexivity. }
  destruct (itinBoundsChanged _ _).
  { unfold fitItinerary, call in H. called H. }
  destruct (legMadeActive _ _).
  { unfold fitActiveLeg, bind, deref, ret, throw, call in H.
    destruct (itinerary newProps); try discriminate. called H. }
  destruct (fromToPresentChanged _ _).
  { unfold fitFromTo in H. destruct isMobile; simpl in H; [returned H | ].
    unfold bind, deref, ret, throw, lift, call in H.
    destruct (propsFrom newProps); try discriminate.
    destruct (propsTo newProps); try discriminate.
    destruct (extendBoundsByPlaces _ _ _) as [b | ]; try discriminate.
    destruct (getBottomLeft b), (getTopRight b). called H. }
  destruct (fromSet _ _).
  { unfold panToPlace, bind, deref, ret, throw, call in H.
    destruct (propsFrom newProps); try discriminate.
    right; eexists; split; [injection H as <-; reflexivity | discriminate]. }
  destruct (toSet _ _).
  { unfold panToPlace, bind, deref, ret, throw, call in H.
    destruct (propsTo newProps); try discriminate.
    right; eexists; split; [injection H as <-; reflexivity | discriminate]. }
  destruct (intermediateAdded _ _).
  { unfold fitIntermediate, bind, lift, call in H; cbv zeta in H.
    destruct (extendBoundsByPlaces _ _ _) as [b | ]; try discriminate.
    called H. }
  destruct (stepMadeActive _ _); [ | returned H].
  unfold panToStep, bind, deref, ret, throw, call in H.
  destruct (itinerary newProps) as [ | | it]; try discriminate.
  destruct (index (legs it) _) as [ | | leg]; try discriminate.
  destruct (index (steps leg) _) as [ | | step]; try discriminate.
  right; eexists; split; [injection H as <-; reflexivity | discriminate].
Qed.

(** C6, at a mount with an itinerary view and an itinerary: the deferred
    task fits the active leg, or the whole itinerary when no leg is active,
    with the options object [{ITINERARY_MAP_PADDING: BOUNDS_PADDING}], which
    has no [padding] key, whereas the options of the immediate fits have
    [padding] set to [BOUNDS_PADDING]. *)
Theorem deferred_fit_lacks_padding (map : MapHandle) (it : Itinerary)
    (leg step : nullable Z) (view : string) (q : nullable Query) w :
  let newProps :=
    {| activeLeg := leg; activeStep := step; itinerary := Val it;
       itineraryView := Val view; popupLocation := Null; query := q;
       leaflet := {| leaflet_map := Val map |} |} in
  let task := FitItineraryView newProps (propsItinBounds newProps) map in
  let target :=
    if notNull leg
    then Val (getLeafletLegBounds (index (legs it) leg))
    else Val (getLeafletItineraryBounds it) in
  updateBounds Null newProps w = Ok (tt, schedule task 250 w) /\
  runTask task w =
    Ok (tt, emit (fitBounds (TargetBounds target) deferredOptions)
              (emit (invalidateSize true) w)) /\
  paddingOption deferredOptions = None /\
  paddingOption paddingOptions = Some BOUNDS_PADDING.
Proof.
  cbv zeta. split; [reflexivity | split; [ | split; reflexivity]].
  unfold runTask, bind, call, deref, ret; simpl.
  destruct (notNull leg); reflexivity.
Qed.

End OverlayFacts.

(** * The remaining branches of [updateBounds] *)

Section OverlayRules.

Context {ext : Externals}.

Implicit Types (oldProps : nullable Props) (newProps : Props) (w : World).

(** ** [extendBoundsByPlaces] *)

Lemma filterTruthy_app {A} (l1 l2 : list (nullable A)) :
  filterTruthy (l1 ++ l2) = filterTruthy l1 ++ filterTruthy l2.
Proof.
  induction l1 as [ | [ | | a] l1 IH]; simpl; auto. now rewrite IH.
Qed.

Lemma extendBoundsByPlaces_coords {B} (extend : B -> LatLng -> B) (b : B)
    (places : nullable (list (nullable Place))) :
  places <> Null ->
  extendBoundsByPlaces extend b places =
    Ok (fold_left extend (validCoords places) b).
Proof.
  intros Hnot. destruct places as [ | | ps]; [reflexivity | congruence | ].
  apply extendBoundsByPlaces_valid.
Qed.

(** X1: extending by the concatenation of two arrays of places is
    extending by the first and then by the second. *)
Theorem extendBoundsByPlaces_app {B} (extend : B -> LatLng -> B) (b : B)
    (ps1 ps2 : list (nullable Place)) :
  extendBoundsByPlaces extend b (Val (ps1 ++ ps2)) =
    match extendBoundsByPlaces extend b (Val ps1) with
    | Ok b1 => extendBoundsByPlaces extend b1 (Val ps2)
    | TypeError => TypeError
    end.
Proof.
  rewrite !extendBoundsByPlaces_valid.
  now rewrite filterTruthy_app, map_app, filter_app, fold_left_app.
Qed.

(** X2: the default [places = []] covers a missing argument only: with
    [undefined] the bounds come back as they were, with [null] the call
    raises; an array whose entries are all null or invalid changes
    nothing, and such entries can be dropped from any array. *)
Theorem extendBoundsByPlaces_skips {B} (extend : B -> LatLng -> B) (b : B) :
  extendBoundsByPlaces extend b Undefined = Ok b /\
  extendBoundsByPlaces extend b Null = TypeError /\
  (forall ps,
     (forall p, In (Val p) ps -> isValidLatLng (placeCoords p) = false) ->
     extendBoundsByPlaces extend b (Val ps) = Ok b) /\
  (forall ps,
     extendBoundsByPlaces extend b (Val ps) =
     extendBoundsByPlaces extend b
       (Val (List.map (fun p => Val p)
               (filter (fun p => isValidLatLng (placeCoords p))
                  (filterTruthy ps))))).
Proof.
  split; [reflexivity | split; [reflexivity | split]].
  - intros ps Hinvalid. rewrite extendBoundsByPlaces_valid, filter_none;
      [reflexivity | ].
    intros c Hc. apply in_map_iff in Hc. destruct Hc as (p & <- & Hp).
    apply Hinvalid. now apply In_filterTruthy.
  - intros ps. rewrite !extendBoundsByPlaces_valid. f_equal. f_equal.
    induction (filterTruthy ps) as [ | p l IH]; simpl; [reflexivity | ].
    destruct (isValidLatLng (placeCoords p)) eqn:Hp; simpl; rewrite ?Hp;
      simpl; now rewrite IH.
Qed.

(** ** The gate on the map handle *)

(** X3: without a map handle [updateBounds] does nothing at all: no call,
    no timer and no error, whatever the props hold. *)
Theorem no_map_handle_noop oldProps newProps w :
  truthy (leaflet_map (leaflet newProps)) = false ->
  updateBounds oldProps newProps w = Ok (tt, w).
Proof.
  intros Hmap. unfold updateBounds; cbv zeta.
  destruct (popupActive _ _); [reflexivity | ].
  destruct (leaflet_map (leaflet newProps)); [reflexivity | reflexivity | ].
  discriminate.
Qed.

(** ** The branches the claims leave out *)

(** X4: when the bounds of the itinerary did not change and a leg other
    than the previous one is active, the map is fit to that leg's bounds
    with the standard padding. *)
Theorem leg_made_active_fits oldProps newProps (map : MapHandle)
    (it : Itinerary) w :
  popupActive (orEmpty oldProps) newProps = false ->
  leaflet_map (leaflet newProps) = Val map ->
  itineraryViewChanged (orEmpty oldProps) newProps = false ->
  itinBoundsChanged (orEmpty oldProps) newProps = false ->
  itinerary newProps = Val it ->
  strictEq Z.eqb (activeLeg newProps) (activeLeg (orEmpty oldProps)) = false ->
  notNull (activeLeg newProps) = true ->
  updateBounds oldProps newProps w =
    Ok (tt, emit (fitBounds
                    (TargetBounds
                       (Val (getLeafletLegBounds
                               (index (legs it) (activeLeg newProps)))))
                    paddingOptions) w).
Proof.
  intros Hpopup Hmap Hview Hitin Hit Hleg Hnot.
  unfold updateBounds; cbv zeta. rewrite Hpopup, Hmap, Hview, Hitin.
  unfold legMadeActive. rewrite Hit, Hleg, Hnot; simpl.
  unfold fitActiveLeg, bind, deref, ret. now rewrite Hit.
Qed.

(** X5: off mobile, when no itinerary or leg branch applies, [from] and
    [to] are both set and one of them changed, the map is fit with the
    standard padding to the corners of the point bounds of [from] and [to]
    extended by the valid intermediate places. *)
Theorem from_to_fit_on_desktop oldProps newProps (map : MapHandle)
    (f t : Place) w :
  isMobile = false ->
  popupActive (orEmpty oldProps) newProps = false ->
  leaflet_map (leaflet newProps) = Val map ->
  itineraryViewChanged (orEmpty oldProps) newProps = false ->
  itinBoundsChanged (orEmpty oldProps) newProps = false ->
  legMadeActive (orEmpty oldProps) newProps = false ->
  propsFrom newProps = Val f ->
  propsTo newProps = Val t ->
  fromChanged (orEmpty oldProps) newProps
    || toChanged (orEmpty oldProps) newProps = true ->
  propsIntermediate newProps <> Null ->
  let bounds :=
    fold_left bounds_extend (validCoords (propsIntermediate newProps))
      (L_bounds (lat f, lon f) (lat t, lon t)) in
  updateBounds oldProps newProps w =
    Ok (tt, emit (fitBounds
                    (TargetCorners (getBottomLeft bounds) (getTopRight bounds))
                    paddingOptions) w).
Proof.
  intros Hmobile Hpopup Hmap Hview Hitin Hleg Hfrom Hto Hchanged Hnot bounds.
  unfold updateBounds; cbv zeta. rewrite Hpopup, Hmap, Hview, Hitin, Hleg.
  unfold fromToPresentChanged. rewrite Hfrom, Hto, Hchanged; simpl.
  unfold fitFromTo. rewrite Hmobile, Hfrom, Hto; simpl.
  unfold bind, deref, ret, lift.
  rewrite (extendBoundsByPlaces_coords _ _ Hnot). fold bounds.
  destruct (getBottomLeft bounds), (getTopRight bounds). reflexivity.
Qed.

(** X6: in the same situation a [null] [intermediatePlaces] makes the
    update raise off mobile, and is harmless on mobile. *)
Theorem from_to_fit_null_intermediate oldProps newProps (map : MapHandle) w :
  popupActive (orEmpty oldProps) newProps = false ->
  leaflet_map (leaflet newProps) = Val map ->
  itineraryViewChanged (orEmpty oldProps) newProps = false ->
  itinBoundsChanged (orEmpty oldProps) newProps = false ->
  legMadeActive (orEmpty oldProps) newProps = false ->
  fromToPresentChanged (orEmpty oldProps) newProps = true ->
  propsIntermediate newProps = Null ->
  updateBounds oldProps newProps w =
    if isMobile then Ok (tt, w) else TypeError.
Proof.
  intros Hpopup Hmap Hview Hitin Hleg Hboth Hnull.
  unfold updateBounds; cbv zeta.
  rewrite Hpopup, Hmap, Hview, Hitin, Hleg, Hboth.
  unfold fromToPresentChanged in Hboth.
  apply andb_prop in Hboth. destruct Hboth as [Hboth _].
  apply andb_prop in Hboth. destruct Hboth as [Hfrom Hto].
  destruct (truthy_Val _ Hfrom) as [f Hf], (truthy_Val _ Hto) as [t Ht].
  unfold fitFromTo. destruct isMobile; simpl; [reflexivity | ].
  unfold bind, deref, ret, lift. now rewrite Hf, Ht, Hnull.
Qed.

(** X7: when no earlier branch applies and the array of intermediate
    places changed, the map is fit, without options, to the bounds it
    displays extended by the valid intermediate places. *)
Theorem intermediate_change_extends_displayed oldProps newProps
    (map : MapHandle) (ps : list (nullable Place)) w :
  popupActive (orEmpty oldProps) newProps = false ->
  leaflet_map (leaflet newProps) = Val map ->
  itineraryViewChanged (orEmpty oldProps) newProps = false ->
  itinBoundsChanged (orEmpty oldProps) newProps = false ->
  legMadeActive (orEmpty oldProps) newProps = false ->
  fromToPresentChanged (orEmpty oldProps) newProps = false ->
  fromSet (orEmpty oldProps) newProps = false ->
  toSet (orEmpty oldProps) newProps = false ->
  propsIntermediate newProps = Val ps ->
  intermediateChanged (orEmpty oldProps) newProps = true ->
  updateBounds oldProps newProps w =
    Ok (tt, emit (fitBounds
                    (TargetBounds
                       (Val (fold_left latLngBounds_extend
                               (validCoords (Val ps)) (getBounds map))))
                    Undefined) w).
Proof.
  intros Hpopup Hmap Hview Hitin Hleg Hboth Hfrom Hto Hps Hchanged.
  unfold updateBounds; cbv zeta.
  rewrite Hpopup, Hmap, Hview, Hitin, Hleg, Hboth, Hfrom, Hto.
  unfold intermediateAdded. rewrite Hps, Hchanged; simpl.
  unfold fitIntermediate; cbv zeta. rewrite Hps, extendBoundsByPlaces_valid.
  reflexivity.
Qed.

Lemma beforeStep_reaches oldProps newProps (map : MapHandle) w :
  beforeStep (orEmpty oldProps) newProps = true ->
  leaflet_map (leaflet newProps) = Val map ->
  updateBounds oldProps newProps w =
    (if stepMadeActive (orEmpty oldProps) newProps
     then panToStep newProps else ret tt) w.
Proof.
  unfold beforeStep. intros Hbefore Hmap.
  repeat (apply andb_prop in Hbefore; destruct Hbefore as [Hbefore ?]).
  unfold updateBounds; cbv zeta.
  repeat match goal with
         | H : negb ?g = true |- _ => apply negb_true_iff in H; rewrite H
         end.
  now rewrite Hmap.
Qed.

(** X8: when no earlier branch applies and another step is made active,
    with [activeLeg] and [activeStep] in range, the map is panned to that
    step. *)
Theorem step_made_active_pans oldProps newProps (map : MapHandle)
    (it : Itinerary) (leg : Leg) (step : Step) w :
  beforeStep (orEmpty oldProps) newProps = true ->
  leaflet_map (leaflet newProps) = Val map ->
  stepMadeActive (orEmpty oldProps) newProps = true ->
  itinerary newProps = Val it ->
  index (legs it) (activeLeg newProps) = Val leg ->
  index (steps leg) (activeStep newProps) = Val step ->
  updateBounds oldProps newProps w =
    Ok (tt, emit (panTo (step_lat step, step_lon step)) w).
Proof.
  intros Hbefore Hmap Hstep Hit Hleg Hs.
  rewrite (beforeStep_reaches _ _ w Hbefore Hmap), Hstep.
  unfold panToStep, bind, deref, ret. now rewrite Hit, Hleg, Hs.
Qed.

(** X9: in the same situation an [activeLeg] or [activeStep] that is out
    of range for the itinerary makes the update raise. *)
Theorem step_out_of_range_raises oldProps newProps (map : MapHandle) w :
  beforeStep (orEmpty oldProps) newProps = true ->
  leaflet_map (leaflet newProps) = Val map ->
  stepMadeActive (orEmpty oldProps) newProps = true ->
  stepInRange newProps = false ->
  updateBounds oldProps newProps w = TypeError.
Proof.
  intros Hbefore Hmap Hstep Hrange.
  rewrite (beforeStep_reaches _ _ w Hbefore Hmap), Hstep.
  unfold stepInRange in Hrange. unfold panToStep, bind, deref, ret, throw.
  destruct (itinerary newProps) as [ | | it]; try reflexivity.
  destruct (index (legs it) (activeLeg newProps)) as [ | | leg];
    try reflexivity.
  destruct (index (steps leg) (activeStep newProps)) as [ | | step];
    try reflexivity.
  discriminate.
Qed.

(** ** One effect per update *)

Ltac no_effect H :=
  unfold ret in H; injection H as <-;
  split; [reflexivity | left; split; reflexivity].

Ltac one_call H :=
  injection H as <-;
  split; [reflexivity | right; left; eexists;
    split; [reflexivity | split; [reflexivity | discriminate]]].

(** X10: an update that returns leaves the clock alone and does one of
    three things: nothing; exactly one call on the map, which is a fit or
    a pan and never [invalidateSize]; or schedules exactly one timer, due
    250 ms later, without calling the map.  Pending timers are never
    removed. *)
Theorem at_most_one_effect oldProps newProps w w' :
  updateBounds oldProps newProps w = Ok (tt, w') ->
  now w' = now w /\
  ((calls w' = calls w /\ timers w' = timers w) \/
   (exists c, calls w' = calls w ++ [c] /\ timers w' = timers w /\
      forall force, c <> invalidateSize force) \/
   (calls w' = calls w /\
    exists task,
      timers w' =
        timers w ++ [{| callback := task; due := (now w + 250)%Z |}])).
Proof.
  unfold updateBounds; cbv zeta. intros H.
  destruct (popupActive _ _); [no_effect H | ].
  destruct (leaflet_map (leaflet newProps)) as [ | | map];
    try (no_effect H).
  destruct (itineraryViewChanged _ _).
  { unfold _fitItineraryViewToMap, setTimeout in H. injection H as <-.
    split; [reflexivity | right; right]. split; [reflexivity | ].
    eexists. reflexivity. }
  destruct (itinBoundsChanged _ _).
  { unfold fitItinerary, call in H. one_call H. }
  destruct (legMadeActive _ _).
  { unfold fitActiveLeg, bind, deref, ret, throw, call in H.
    destruct (itinerary newProps); try discriminate. one_call H. }
  destruct (fromToPresentChanged _ _).
  { unfold fitFromTo in H. destruct isMobile; simpl in H; [no_effect H | ].
    unfold bind, deref, ret, throw, lift, call in H.
    destruct (propsFrom newProps); try discriminate.
    destruct (propsTo newProps); try discriminate.
    destruct (extendBoundsByPlaces _ _ _) as [b | ]; try discriminate.
    destruct (getBottomLeft b), (getTopRight b). one_call H. }
  destruct (fromSet _ _).
  { unfold panToPlace, bind, deref, ret, throw, call in H.
    destruct (propsFrom newProps); try discriminate. one_call H. }
  destruct (toSet _ _).
  { unfold panToPlace, bind, deref, ret, throw, call in H.
    destruct (propsTo newProps); try discriminate. one_call H. }
  destruct (intermediateAdded _ _).
  { unfold fitIntermediate, bind, lift, call in H; cbv zeta in H.
    destruct (extendBoundsByPlaces _ _ _) as [b | ]; try discriminate.
    one_call H. }
  destruct (stepMadeActive _ _); [ | no_effect H].
  unfold panToStep, bind, deref, ret, throw, call in H.
  destruct (itinerary newProps) as [ | | it]; try discriminate.
  destruct (index (legs it) _) as [ | | leg]; try discriminate.
  destruct (index (steps leg) _) as [ | | step]; try discriminate.
  one_call H.
Qed.

(** ** Mounting *)

(** X11: on mount there are no previous props, so every field that is set
    counts as changed and the decision depends on what is present: with no
    popup, a map handle and no itinerary view, the map is fit to the
    itinerary if there is one; else to [from] and [to] if both are set;
    else panned to the one that is set; else fit to the displayed bounds
    extended by the intermediate places if there is such an array; the
    active leg and the active step are never looked at. *)
Theorem mount_decides_by_presence (props : Props) (map : MapHandle) w :
  truthy (popupLocation props) = false ->
  leaflet_map (leaflet props) = Val map ->
  itineraryView props = Undefined ->
  componentDidMount props w =
    (if truthy (itinerary props) then fitItinerary props
     else if truthy (propsFrom props) && truthy (propsTo props)
     then fitFromTo props
     else if truthy (propsFrom props) then panToPlace (propsFrom props)
     else if truthy (propsTo props) then panToPlace (propsTo props)
     else if truthy (propsIntermediate props) then fitIntermediate props map
     else ret tt) w.
Proof.
  intros Hpopup Hmap Hview.
  unfold componentDidMount, updateBounds; cbv zeta.
  unfold popupActive, itineraryViewChanged. simpl orEmpty.
  cbn [emptyProps popupLocation itineraryView truthy orb].
  rewrite Hpopup, Hmap, Hview. cbn [strictEq negb].
  unfold itinBoundsChanged, legMadeActive, stepMadeActive, propsItinBounds;
    cbv zeta. cbn [emptyProps itinerary andField truthy negb andb orb].
  destruct (itinerary props) as [ | | it]; cbn [andField truthy andb orb];
    try reflexivity.
  all: unfold fromToPresentChanged, fromSet, toSet, intermediateAdded,
         fromChanged, toChanged, intermediateChanged, propsFrom, propsTo,
         propsIntermediate;
       cbn [emptyProps query andField];
       destruct (andField (query props) from) as [ | | f],
                (andField (query props) to) as [ | | t],
                (andField (query props) intermediatePlaces) as [ | | ps];
       reflexivity.
Qed.

(** ** The deferred refit runs once *)

Lemma elapse_single (t : Task) (d n dt : Z) (cs : list MapCall) :
  (d <= n + dt)%Z ->
  elapse dt {| now := n; calls := cs;
               timers := [{| callback := t; due := d |}] |} =
    runTask t {| now := (n + dt)%Z; calls := cs; timers := [] |}.
Proof.
  intros Hd. unfold elapse; cbv zeta. cbn [now calls timers filter].
  assert (Hdue : isDue (n + dt) {| callback := t; due := d |} = true).
  { unfold isDue; simpl. now apply Z.leb_le. }
  rewrite Hdue. cbn [negb runTasks callback]. apply bind_ret_tt.
Qed.

(** X18: with no other timer pending, the task scheduled by a change of
    itinerary view makes no call before 250 ms have elapsed, runs when
    they have, starting with [invalidateSize(true)], and is not run again
    by any later passing of time. *)
Theorem deferred_fit_fires_once oldProps newProps (map : MapHandle) w
    (d1 d2 d3 : Z) :
  popupActive (orEmpty oldProps) newProps = false ->
  leaflet_map (leaflet newProps) = Val map ->
  itineraryViewChanged (orEmpty oldProps) newProps = true ->
  timers w = [] ->
  (d1 < 250)%Z ->
  (250 <= d1 + d2)%Z ->
  let task := FitItineraryView newProps (propsItinBounds newProps) map in
  exists cs,
    (updateBounds oldProps newProps ;;; elapse d1) w =
      Ok (tt, {| now := (now w + d1)%Z; calls := calls w;
                 timers := [{| callback := task;
                               due := (now w + 250)%Z |}] |}) /\
    (updateBounds oldProps newProps ;;; elapse d1 ;;; elapse d2) w =
      Ok (tt, {| now := (now w + d1 + d2)%Z;
                 calls := calls w ++ invalidateSize true :: cs;
                 timers := [] |}) /\
    (updateBounds oldProps newProps ;;; elapse d1 ;;; elapse d2 ;;; elapse d3)
      w =
      Ok (tt, {| now := (now w + d1 + d2 + d3)%Z;
                 calls := calls w ++ invalidateSize true :: cs;
                 timers := [] |}).
Proof.
  intros Hpopup Hmap Hview Hnone Hd1 Hd2 task.
  destruct (runTask_invalidates newProps (propsItinBounds newProps) map
              {| now := (now w + d1 + d2)%Z; calls := calls w; timers := [] |})
    as (cs & Hrun & _).
  cbn [now calls timers] in Hrun. fold task in Hrun.
  exists cs.
  assert (H1 : (updateBounds oldProps newProps ;;; elapse d1) w =
               Ok (tt, {| now := (now w + d1)%Z; calls := calls w;
                          timers := [{| callback := task;
                                        due := (now w + 250)%Z |}] |})).
  { unfold bind. rewrite (view_change_schedules _ _ w Hpopup Hmap Hview).
    now apply elapse_early. }
  assert (H2 : (updateBounds oldProps newProps ;;; elapse d1 ;;; elapse d2) w =
               Ok (tt, {| now := (now w + d1 + d2)%Z;
                          calls := calls w ++ invalidateSize true :: cs;
                          timers := [] |})).
  { unfold bind in H1 |- *.
    destruct (updateBounds oldProps newProps w) as [[u w0] | ];
      [ | discriminate].
    rewrite H1, elapse_single by lia. exact Hrun. }
  split; [exact H1 | split; [exact H2 | ]].
  unfold bind in H2 |- *.
  destruct (updateBounds oldProps newProps w) as [[u w0] | ];
    [ | discriminate].
  destruct (elapse d1 w0) as [[u1 w1] | ]; [ | discriminate].
  rewrite H2. reflexivity.
Qed.

(** ** The calls an update makes itself *)

Ltac other_branch :=
  unfold intermediateBranch;
  repeat match goal with
         | H : ?g = _ |- context [?g] => rewrite H
         end;
  cbn [negb andb truthy]; rewrite ?andb_false_r; reflexivity.

Ltac no_call H :=
  unfold ret in H; injection H as <-;
  left; split; [reflexivity | other_branch].

(** X19: the one call an update makes itself, if any, is a [fitBounds] or
    a [panTo].  A [fitBounds] passes [{padding: BOUNDS_PADDING}] in every
    branch but the intermediate-places one, and the update makes a
    [fitBounds] without options when, and only when, that branch is the
    one taken. *)
Theorem immediate_calls_classified oldProps newProps w w' :
  updateBounds oldProps newProps w = Ok (tt, w') ->
  (calls w' = calls w /\
   intermediateBranch (orEmpty oldProps) newProps = false) \/
  exists c, calls w' = calls w ++ [c] /\
    (((exists target, c = fitBounds target paddingOptions) /\
      intermediateBranch (orEmpty oldProps) newProps = false) \/
     ((exists target, c = fitBounds target Undefined) /\
      intermediateBranch (orEmpty oldProps) newProps = true) \/
     ((exists latlng, c = panTo latlng) /\
      intermediateBranch (orEmpty oldProps) newProps = false)).
Proof.
  unfold updateBounds; cbv zeta. intros H.
  destruct (popupActive _ _) eqn:Hpopup; [no_call H | ].
  destruct (leaflet_map (leaflet newProps)) as [ | | map] eqn:Hmap;
    try (no_call H).
  destruct (itineraryViewChanged _ _) eqn:Hview.
  { unfold _fitItineraryViewToMap, setTimeout in H. injection H as <-.
    left; split; [reflexivity | other_branch]. }
  destruct (itinBoundsChanged _ _) eqn:Hitin.
  { unfold fitItinerary, call in H. injection H as <-.
    right. eexists. split; [reflexivity | ]. left.
    split; [eexists; reflexivity | other_branch]. }
  destruct (legMadeActive _ _) eqn:Hleg.
  { unfold fitActiveLeg, bind, deref, ret, throw, call in H.
    destruct (itinerary newProps); try discriminate. injection H as <-.
    right. eexists. split; [reflexivity | ]. left.
    split; [eexists; reflexivity | other_branch]. }
  destruct (fromToPresentChanged _ _) eqn:Hboth.
  { unfold fitFromTo in H.
    destruct isMobile; simpl in H; [no_call H | ].
    unfold bind, deref, ret, throw, lift, call in H.
    destruct (propsFrom newProps); try discriminate.
    destruct (propsTo newProps); try discriminate.
    destruct (extendBoundsByPlaces _ _ _) as [b | ]; try discriminate.
    destruct (getBottomLeft b), (getTopRight b). injection H as <-.
    right. eexists. split; [reflexivity | ]. left.
    split; [eexists; reflexivity | other_branch]. }
  destruct (fromSet _ _) eqn:Hfrom.
  { unfold panToPlace, bind, deref, ret, throw, call in H.
    destruct (propsFrom newProps); try discriminate. injection H as <-.
    right. eexists. split; [reflexivity | ]. right. right.
    split; [eexists; reflexivity | other_branch]. }
  destruct (toSet _ _) eqn:Hto.
  { unfold panToPlace, bind, deref, ret, throw, call in H.
    destruct (propsTo newProps); try discriminate. injection H as <-.
    right. eexists. split; [reflexivity | ]. right. right.
    split; [eexists; reflexivity | other_branch]. }
  destruct (intermediateAdded _ _) eqn:Hinter.
  { unfold fitIntermediate, bind, lift, call in H; cbv zeta in H.
    destruct (extendBoundsByPlaces _ _ _) as [b | ]; try discriminate.
    injection H as <-.
    right. eexists. split; [reflexivity | ]. right. left.
    split; [eexists; reflexivity | ].
    unfold intermediateBranch.
    now rewrite Hpopup, Hmap, Hview, Hitin, Hleg, Hboth, Hfrom, Hto, Hinter. }
  destruct (stepMadeActive _ _); [ | no_call H].
  unfold panToStep, bind, deref, ret, throw, call in H.
  destruct (itinerary newProps) as [ | | it]; try discriminate.
  destruct (index (legs it) _) as [ | | leg]; try discriminate.
  destruct (index (steps leg) _) as [ | | step]; try discriminate.
  injection H as <-.
  right. eexists. split; [reflexivity | ]. right. right.
  split; [eexists; reflexivity | other_branch].
Qed.

End OverlayRules.

(** * The results header *)

(** X12: the header reads "No Trip Found" exactly when the result count is
    0 and there are errors. *)
Theorem headerText_no_trip_iff {A} (errors : list A) (rc : nullable Z) :
  ResultsHeader.headerText errors rc = "No Trip Found" <->
  rc = Val 0%Z /\ errors <> [].
Proof.
  unfold ResultsHeader.headerText; cbv zeta.
  destruct rc as [ | | n]; simpl.
  - split; [discriminate | intros [H _]; discriminate].
  - split; [discriminate | intros [H _]; discriminate].
  - destruct (Z.eqb_spec n 0) as [-> | Hn]; simpl.
    + destruct errors as [ | e errors]; simpl.
      * split; [discriminate | intros [_ H]; now elim H].
      * split; [intros _; split; [reflexivity | discriminate] | reflexivity].
    + split; [discriminate | intros [H _]; congruence].
Qed.

(** X13: the header reads "Waiting..." exactly when the result count is
    null, undefined or 0, and in the last case there are no errors. *)
Theorem headerText_waiting_iff {A} (errors : list A) (rc : nullable Z) :
  ResultsHeader.headerText errors rc = "Waiting..." <->
  ResultsHeader.truthyNumber rc = false /\ (rc = Val 0%Z -> errors = []).
Proof.
  unfold ResultsHeader.headerText; cbv zeta.
  destruct rc as [ | | n]; simpl.
  - split; [intros _; split; [reflexivity | discriminate] | reflexivity].
  - split; [intros _; split; [reflexivity | discriminate] | reflexivity].
  - destruct (Z.eqb_spec n 0) as [-> | Hn]; simpl.
    + destruct errors as [ | e errors]; simpl.
      * split; [intros _; split; reflexivity | reflexivity].
      * split; [discriminate | intros [_ H]; specialize (H eq_refl);
                                discriminate].
    + split; [discriminate | intros [H _]; discriminate].
Qed.

(** X14: from the state to the header: without an active search, or
    without the response the realtime flag selects, the header reads
    "Waiting..." whatever the errors; with a response it counts the
    active itineraries, in the singular for one, and without itineraries
    it reads "No Trip Found" if there are errors and "Waiting..." if
    not. *)
Theorem header_of_state {R I A} (activeSearch : nullable (ResultsHeader.Search R))
    (useRealtime : bool) (itineraries : list I) (errors : list A) :
  ResultsHeader.headerText errors
    (ResultsHeader.resultCount activeSearch useRealtime itineraries) =
  if truthy (ResultsHeader.activeResponse activeSearch useRealtime) then
    match itineraries, errors with
    | [], [] => "Waiting..."
    | [], _ :: _ => "No Trip Found"
    | _ :: _, _ =>
        ("We Found " ++
         ResultsHeader.numberToString (Z.of_nat (List.length itineraries)) ++
         (if (List.length itineraries =? 1)%nat
          then " Option" else " Options"))%string
    end
  else "Waiting...".
Proof.
  unfold ResultsHeader.resultCount.
  destruct (truthy (ResultsHeader.activeResponse activeSearch useRealtime));
    [ | reflexivity].
  unfold ResultsHeader.headerText; cbv zeta.
  destruct itineraries as [ | i its].
  - destruct errors; reflexivity.
  - cbn [strictEq].
    replace (Z.of_nat (List.length (i :: its)) =? 0)%Z with false
      by (symmetry; apply Z.eqb_neq; simpl List.length; lia).
    cbn [andb negb].
    destruct its as [ | i' its].
    + reflexivity.
    + replace (1 <? Z.of_nat (List.length (i :: i' :: its)))%Z with true
        by (symmetry; apply Z.ltb_lt; simpl List.length; lia).
      reflexivity.
Qed.

(** * The mobile results screen *)

Lemma dotClass_active (idx : nullable Z) (i : Z) :
  MobileResultsScreen.dotClass idx i = "dot active" <-> idx = Val i.
Proof.
  unfold MobileResultsScreen.dotClass.
  destruct idx as [ | | k]; simpl; try (split; discriminate).
  destruct (Z.eqb_spec k i) as [-> | Hk]; simpl.
  - split; reflexivity.
  - split; [discriminate | congruence].
Qed.

Lemma count_active_seq (k : Z) (a len : nat) :
  count_occ string_dec
    (List.map (fun i => MobileResultsScreen.dotClass (Val k) (Z.of_nat i))
       (seq a len)) "dot active" =
  if ((Z.of_nat a <=? k) && (k <? Z.of_nat (a + len)))%Z then 1%nat else 0%nat.
Proof.
  revert a. induction len as [ | len IH]; intros a.
  - simpl. replace (a + 0)%nat with a by lia.
    destruct (Z.leb_spec (Z.of_nat a) k), (Z.ltb_spec k (Z.of_nat a));
      simpl; try reflexivity; lia.
  - cbn [seq List.map count_occ]. rewrite IH.
    destruct (string_dec _ _) as [Heq | Hneq].
    + apply dotClass_active in Heq. injection Heq as ->.
      destruct (Z.leb_spec (Z.of_nat (S a)) (Z.of_nat a)); [lia | ].
      destruct (Z.leb_spec (Z.of_nat a) (Z.of_nat a)); [ | lia].
      destruct (Z.ltb_spec (Z.of_nat a) (Z.of_nat (a + S len))); [ | lia].
      reflexivity.
    + assert (Hk : k <> Z.of_nat a).
      { intros ->. apply Hneq. now apply dotClass_active. }
      destruct (Z.leb_spec (Z.of_nat (S a)) k),
               (Z.ltb_spec k (Z.of_nat (S a + len))),
               (Z.leb_spec (Z.of_nat a) k),
               (Z.ltb_spec k (Z.of_nat (a + S len)));
        simpl; try reflexivity; lia.
Qed.

(** X15: [renderDots] makes one dot per result, none for a count that is
    null, undefined or negative; every dot has the class "dot" or
    "dot active", and exactly one is active when the active index lies
    within the results, none otherwise. *)
Theorem renderDots_one_active (idx rc : nullable Z) :
  List.length (MobileResultsScreen.renderDots idx rc) =
    match rc with Val n => Z.to_nat n | _ => 0%nat end /\
  (forall c, In c (MobileResultsScreen.renderDots idx rc) ->
     c = "dot" \/ c = "dot active") /\
  count_occ string_dec (MobileResultsScreen.renderDots idx rc) "dot active" =
    match idx, rc with
    | Val k, Val n => if ((0 <=? k) && (k <? n))%Z then 1%nat else 0%nat
    | _, _ => 0%nat
    end.
Proof.
  unfold MobileResultsScreen.renderDots. split; [ | split].
  - destruct rc as [ | | n]; try reflexivity.
    now rewrite length_map, length_seq.
  - intros c Hin. destruct rc as [ | | n]; try contradiction.
    apply in_map_iff in Hin. destruct Hin as (i & <- & _).
    unfold MobileResultsScreen.dotClass.
    destruct (strictEq _ _ _); [right | left]; reflexivity.
  - destruct rc as [ | | n]; [now destruct idx | now destruct idx | ].
    destruct idx as [ | | k].
    + apply count_occ_not_In. intros Hin. apply in_map_iff in Hin.
      destruct Hin as (i & Hi & _). apply dotClass_active in Hi. discriminate.
    + apply count_occ_not_In. intros Hin. apply in_map_iff in Hin.
      destruct Hin as (i & Hi & _). apply dotClass_active in Hi. discriminate.
    + rewrite count_active_seq. simpl Z.of_nat. simpl Nat.add.
      destruct (Z.leb_spec 0 k); simpl; [ | reflexivity].
      destruct (Z.ltb_spec k (Z.of_nat (Z.to_nat n))), (Z.ltb_spec k n);
        try reflexivity; lia.
Qed.

Lemma render_container (p : MobileResultsScreen.ScreenProps)
    (i : MobileResultsScreen.Instance) :
  truthy (MobileResultsScreen.container (MobileResultsScreen.render p i)) =
  negb (truthy (MobileResultsScreen.screenError p)).
Proof.
  unfold MobileResultsScreen.render; simpl.
  destruct (truthy (MobileResultsScreen.screenError p)); [reflexivity | ].
  now destruct (MobileResultsScreen.container i).
Qed.

Lemma render_twice (p : MobileResultsScreen.ScreenProps)
    (i : MobileResultsScreen.Instance) :
  MobileResultsScreen.render p (MobileResultsScreen.render p i) =
  MobileResultsScreen.render p i.
Proof.
  unfold MobileResultsScreen.render; simpl.
  destruct (truthy (MobileResultsScreen.screenError p)); [reflexivity | ].
  now destruct (MobileResultsScreen.container i).
Qed.

(** The ref exists exactly while the last render had no error. *)
Lemma deliver_keeps_ref (e : MobileResultsScreen.Event)
    (m m' : MobileResultsScreen.Mounted) :
  truthy (MobileResultsScreen.container (MobileResultsScreen.instance m)) =
    negb (truthy (MobileResultsScreen.screenError (MobileResultsScreen.props m))) ->
  MobileResultsScreen.deliver e m = Ok m' ->
  truthy (MobileResultsScreen.container (MobileResultsScreen.instance m')) =
    negb (truthy (MobileResultsScreen.screenError (MobileResultsScreen.props m'))).
Proof.
  intros Hinv. destruct e as [ | top | p]; simpl.
  - destruct (truthy (MobileResultsScreen.screenError
                        (MobileResultsScreen.props m))) eqn:Herr.
    + intros H. injection H as <-. now rewrite Herr.
    + destruct (MobileResultsScreen._optionClicked _); [ | discriminate].
      intros H. injection H as <-. simpl. apply render_container.
  - intros H. injection H as <-. simpl. rewrite <- Hinv.
    now destruct (MobileResultsScreen.container
                    (MobileResultsScreen.instance m)).
  - destruct (MobileResultsScreen.componentDidUpdate _ _ _); [ | discriminate].
    intros H. injection H as <-. simpl. apply render_container.
Qed.

(** X16: along any sequence of clicks, scrolls and new props that did not
    raise, the container ref exists exactly while no error is displayed;
    hence a click never raises: where its targets are rendered it toggles
    [expanded] and scrolls the container to the top. *)
Theorem screen_clicks_never_raise (p0 : MobileResultsScreen.ScreenProps)
    (es : list MobileResultsScreen.Event) (m : MobileResultsScreen.Mounted) :
  MobileResultsScreen.run es (MobileResultsScreen.mount p0) = Ok m ->
  truthy (MobileResultsScreen.container (MobileResultsScreen.instance m)) =
    negb (truthy (MobileResultsScreen.screenError (MobileResultsScreen.props m))) /\
  exists m',
    MobileResultsScreen.deliver MobileResultsScreen.Click m = Ok m' /\
    (truthy (MobileResultsScreen.screenError (MobileResultsScreen.props m))
       = false ->
     MobileResultsScreen.instance m' =
       {| MobileResultsScreen.expanded :=
            negb (MobileResultsScreen.expanded (MobileResultsScreen.instance m));
          MobileResultsScreen.container := Val 0%Z |}).
Proof.
  intros Hrun.
  assert (Hinv : truthy (MobileResultsScreen.container
                           (MobileResultsScreen.instance m)) =
                 negb (truthy (MobileResultsScreen.screenError
                                 (MobileResultsScreen.props m)))).
  { revert Hrun. generalize (render_container p0
                               (MobileResultsScreen.constructor Undefined)).
    change (MobileResultsScreen.render p0
              (MobileResultsScreen.constructor Undefined))
      with (MobileResultsScreen.instance (MobileResultsScreen.mount p0)).
    change p0 with (MobileResultsScreen.props (MobileResultsScreen.mount p0))
      at 2.
    generalize (MobileResultsScreen.mount p0) as m0.
    induction es as [ | e es IH]; intros m0 H0 Hrun; simpl in Hrun.
    - now injection Hrun as <-.
    - destruct (MobileResultsScreen.deliver e m0) as [m1 | ] eqn:Hd;
        [ | discriminate].
      exact (IH m1 (deliver_keeps_ref e m0 H0 Hd) Hrun). }
  split; [exact Hinv | ].
  simpl.
  destruct (truthy (MobileResultsScreen.screenError
                      (MobileResultsScreen.props m))) eqn:Herr.
  - exists m. split; [reflexivity | discriminate].
  - unfold MobileResultsScreen._optionClicked,
      MobileResultsScreen._setExpanded.
    destruct (MobileResultsScreen.container (MobileResultsScreen.instance m));
      try discriminate.
    eexists. split; [reflexivity | ]. intros _. simpl.
    unfold MobileResultsScreen.render; simpl. now rewrite Herr.
Qed.

(** X17: receiving new props raises exactly when the active leg changed
    and the new props carry an error, the container then not being
    rendered; a change of leg without error collapses the narrative and
    scrolls it to the top; with the leg unchanged the props are rendered
    and the state is left alone. *)
Theorem screen_update_raises_iff (m : MobileResultsScreen.Mounted)
    (p : MobileResultsScreen.ScreenProps) :
  let changed :=
    negb (strictEq Z.eqb (MobileResultsScreen.screenActiveLeg p)
            (MobileResultsScreen.screenActiveLeg (MobileResultsScreen.props m))) in
  let error := truthy (MobileResultsScreen.screenError p) in
  (MobileResultsScreen.deliver (MobileResultsScreen.Receive p) m = TypeError <->
   changed = true /\ error = true) /\
  (changed = true -> error = false ->
   MobileResultsScreen.deliver (MobileResultsScreen.Receive p) m =
     Ok {| MobileResultsScreen.props := p;
           MobileResultsScreen.instance :=
             {| MobileResultsScreen.expanded := false;
                MobileResultsScreen.container := Val 0%Z |} |}) /\
  (changed = false ->
   MobileResultsScreen.deliver (MobileResultsScreen.Receive p) m =
     Ok {| MobileResultsScreen.props := p;
           MobileResultsScreen.instance :=
             MobileResultsScreen.render p (MobileResultsScreen.instance m) |}).
Proof.
  cbv zeta.
  assert (Hout :
    MobileResultsScreen.deliver (MobileResultsScreen.Receive p) m =
    if strictEq Z.eqb (MobileResultsScreen.screenActiveLeg p)
         (MobileResultsScreen.screenActiveLeg (MobileResultsScreen.props m))
    then Ok {| MobileResultsScreen.props := p;
               MobileResultsScreen.instance :=
                 MobileResultsScreen.render p (MobileResultsScreen.instance m) |}
    else if truthy (MobileResultsScreen.screenError p) then TypeError
    else Ok {| MobileResultsScreen.props := p;
               MobileResultsScreen.instance :=
                 {| MobileResultsScreen.expanded := false;
                    MobileResultsScreen.container := Val 0%Z |} |}).
  { cbn [MobileResultsScreen.deliver].
    unfold MobileResultsScreen.componentDidUpdate.
    destruct (strictEq Z.eqb _ _); cbn [negb].
    - now rewrite render_twice.
    - unfold MobileResultsScreen._setExpanded, MobileResultsScreen.render.
      cbn [MobileResultsScreen.container MobileResultsScreen.expanded].
      destruct (truthy (MobileResultsScreen.screenError p)) eqn:Herr.
      + reflexivity.
      + destruct (MobileResultsScreen.container
                    (MobileResultsScreen.instance m));
          reflexivity. }
  rewrite Hout.
  destruct (strictEq Z.eqb _ _); cbn [negb].
  - split; [ | split].
    + split; [discriminate | intros [H _]; discriminate].
    + discriminate.
    + reflexivity.
  - destruct (truthy (MobileResultsScreen.screenError p)).
    + split; [ | split].
      * split; [intros _; split; reflexivity | reflexivity].
      * discriminate.
      * discriminate.
    + split; [ | split].
      * split; [discriminate | intros [_ H]; discriminate].
      * reflexivity.
      * discriminate.
Qed.

(** ** The statements at concrete props *)

Lemma popup_suppresses_update_witness :
  let oldProps := mkProps desktop displayed Null Null Null Null Null
                    (mkQuery Null Null) in
  let newProps := mkProps desktop displayed Null Null (Val itinB) (Val "detail")
                    (Val placeB) (mkQuery (Val placeA) (Val placeB)) in
  (truthy (popupLocation (orEmpty (Val oldProps))) = true \/
   truthy (popupLocation newProps) = true) /\
  updateBounds (Val oldProps) newProps world0 = Ok (tt, world0).
Proof.
  cbv zeta. split.
  - right. reflexivity.
  - apply popup_suppresses_update. right. reflexivity.
Defined.

Lemma unchanged_props_noop_witness :
  let props := mkProps desktop displayed (Val 1%Z) (Val 0%Z) (Val itinB)
                 (Val "detail") Null (mkQuery (Val placeA) (Val placeB)) in
  (forall b : @LatLngBounds desktop, latLngBounds_equals b b = true) /\
  updateBounds (Val props) props world0 = Ok (tt, world0).
Proof.
  cbv zeta. split.
  - exact regionEquals_refl.
  - apply (@unchanged_props_noop desktop). exact regionEquals_refl.
Defined.

Lemma itinerary_bounds_change_fits_witness :
  let oldProps := mkProps desktop displayed Null Null (Val itinA) Null Null
                    (mkQuery (Val placeA) Null) in
  let newProps := mkProps desktop displayed Null Null (Val itinB) Null Null
                    (mkQuery (Val placeB) (Val placeA)) in
  (popupActive (orEmpty (Val oldProps)) newProps = false /\
   leaflet_map (leaflet newProps) = Val (mapOf desktop displayed) /\
   itineraryViewChanged (orEmpty (Val oldProps)) newProps = false /\
   itinerary newProps = Val itinB /\
   fromChanged (orEmpty (Val oldProps)) newProps = true /\
   toChanged (orEmpty (Val oldProps)) newProps = true) /\
  (updateBounds (Val oldProps) newProps world0 =
     Ok (tt, emit (fitBounds (@TargetBounds desktop (Val (itineraryRegion itinB)))
                     paddingOptions) world0) /\
   paddingOption paddingOptions = Some BOUNDS_PADDING).
Proof.
  cbv zeta. split.
  - repeat split.
  - apply (@itinerary_bounds_change_fits desktop) with
      (map := (mapOf desktop displayed)); try reflexivity.
    right. exists itinA. split; reflexivity.
Defined.

Lemma mobile_from_to_change_noop_witness :
  let oldProps := mkProps mobile displayed Null Null Null Null Null
                    (mkQuery Null Null) in
  let newProps := mkProps mobile displayed Null Null Null Null Null
                    (mkQuery (Val placeA) (Val placeB)) in
  (@isMobile mobile = true /\
   fromChanged (orEmpty (Val oldProps)) newProps = true /\
   toChanged (orEmpty (Val oldProps)) newProps = true) /\
  fromToPresentChanged (orEmpty (Val oldProps)) newProps = true /\
  updateBounds (Val oldProps) newProps world0 = Ok (tt, world0).
Proof.
  cbv zeta. split.
  - repeat split.
  - apply (@mobile_from_to_change_noop mobile); reflexivity.
Defined.

(** Scenario 1 of the specification: from [{from: null, to: null,
    itinerary: null}] to [{from: (47.6, -122.3), to: null, itinerary:
    null}]. *)
Lemma single_endpoint_change_pans_witness :
  let oldProps := mkProps desktop displayed Null Null Null Null Null
                    (mkQuery Null Null) in
  let newProps := mkProps desktop displayed Null Null Null Null Null
                    (mkQuery (Val placeA) Null) in
  (popupActive (orEmpty (Val oldProps)) newProps = false /\
   itineraryViewChanged (orEmpty (Val oldProps)) newProps = false /\
   itinBoundsChanged (orEmpty (Val oldProps)) newProps = false /\
   legMadeActive (orEmpty (Val oldProps)) newProps = false /\
   fromToPresentChanged (orEmpty (Val oldProps)) newProps = false /\
   fromChanged (orEmpty (Val oldProps)) newProps = true /\
   toChanged (orEmpty (Val oldProps)) newProps = false) /\
  updateBounds (Val oldProps) newProps world0 =
    Ok (tt, emit (panTo (47.6%float, (-122.3)%float)) world0).
Proof.
  cbv zeta. split.
  - repeat split.
  - apply (@single_endpoint_change_pans desktop) with
      (map := (mapOf desktop displayed)) (p := placeA); try reflexivity.
    left. repeat split.
Defined.

Lemma itinerary_removed_no_refit_witness :
  let oldProps := mkProps desktop displayed (Val 0%Z) Null (Val itinA) Null
                    Null (mkQuery (Val placeA) (Val placeB)) in
  let newProps := mkProps desktop displayed Null Null Null Null Null
                    (mkQuery (Val placeA) Null) in
  (popupActive (orEmpty (Val oldProps)) newProps = false /\
   itineraryViewChanged (orEmpty (Val oldProps)) newProps = false /\
   itinerary (orEmpty (Val oldProps)) = Val itinA /\
   truthy (itinerary newProps) = false) /\
  itinBoundsChanged (orEmpty (Val oldProps)) newProps = false /\
  updateBounds (Val oldProps) newProps world0 = Ok (tt, world0).
Proof.
  cbv zeta. split.
  - repeat split.
  - pose proof (@itinerary_removed_no_refit desktop
                  (Val (mkProps desktop displayed (Val 0%Z) Null (Val itinA)
                          Null Null (mkQuery (Val placeA) (Val placeB))))
                  (mkProps desktop displayed Null Null Null Null Null
                     (mkQuery (Val placeA) Null))
                  itinA world0 eq_refl eq_refl eq_refl eq_refl)
      as (Hitin & _ & _ & Hrun).
    split; [exact Hitin | ]. rewrite Hrun. reflexivity.
Defined.

Lemma view_change_task_invalidates_witness :
  let oldProps := mkProps desktop displayed Null Null Null Null Null
                    (mkQuery (Val placeA) (Val placeB)) in
  let newProps := mkProps desktop displayed Null Null Null (Val "detail") Null
                    (mkQuery (Val placeA) (Val placeB)) in
  let task := FitItineraryView newProps (propsItinBounds newProps)
                (mapOf desktop displayed) in
  (popupActive (orEmpty (Val oldProps)) newProps = false /\
   itineraryViewChanged (orEmpty (Val oldProps)) newProps = true) /\
  updateBounds (Val oldProps) newProps world0 =
    Ok (tt, schedule task 250 world0) /\
  elapse 250 (schedule task 250 world0) =
    Ok (tt, {| now := 250; calls := [invalidateSize true]; timers := [] |}).
Proof.
  cbv zeta. split.
  - repeat split.
  - pose proof (@view_change_task_invalidates desktop
                  (Val (mkProps desktop displayed Null Null Null Null Null
                          (mkQuery (Val placeA) (Val placeB))))
                  (mkProps desktop displayed Null Null Null (Val "detail") Null
                     (mkQuery (Val placeA) (Val placeB)))
                  (mapOf desktop displayed) world0
                  eq_refl eq_refl eq_refl) as (Hrun & Hfire & _).
    split; [exact Hrun | ].
    destruct (Hfire 250%Z) as (earlier & cs & w' & Helapse & _); [lia | ].
    reflexivity.
Defined.

Lemma deferred_fit_never_cancelled_witness :
  let newProps := mkProps desktop displayed (Val 1%Z) Null (Val itinB)
                    (Val "detail") Null (mkQuery (Val placeA) (Val placeB)) in
  (popupActive (orEmpty Null) newProps = false /\
   itineraryViewChanged (orEmpty Null) newProps = true) /\
  (updateBounds Null newProps ;;; componentWillUnmount ;;; elapse 300) world0 =
    Ok (tt, {| now := 300;
               calls := [invalidateSize true;
                         fitBounds
                           (@TargetBounds desktop
                              (Val (legRegion (index (legs itinB) (Val 1%Z)))))
                           deferredOptions];
               timers := [] |}).
Proof.
  cbv zeta. split.
  - repeat split.
  - pose proof (@deferred_fit_never_cancelled desktop Null
                  (mkProps desktop displayed (Val 1%Z) Null (Val itinB)
                     (Val "detail") Null (mkQuery (Val placeA) (Val placeB)))
                  (mapOf desktop displayed) world0
                  eq_refl eq_refl eq_refl) as (_ & _ & Hfire).
    rewrite (Hfire 300%Z); [reflexivity | lia].
Defined.

(** C3 fails on the code: a component mounted with an itinerary view and
    unmounted 100 ms later still gets its map resized once the 250 ms are
    over; and two changes of view within the delay make both tasks run. *)
Lemma unmounted_task_still_fires :
  let props := mkProps desktop displayed Null Null Null (Val "detail") Null
                 (mkQuery Null Null) in
  let props' := mkProps desktop displayed Null Null Null (Val "list") Null
                  (mkQuery Null Null) in
  (componentDidMount props ;;; elapse 100 ;;;
   componentWillUnmount ;;; elapse 200) world0 =
    Ok (tt, {| now := 300; calls := [invalidateSize true]; timers := [] |}) /\
  (componentDidMount props ;;; elapse 100 ;;;
   componentDidUpdate props props' ;;; elapse 300) world0 =
    Ok (tt, {| now := 400;
               calls := [invalidateSize true; invalidateSize true];
               timers := [] |}).
Proof. cbv zeta. split; reflexivity. Qed.



(** ** The remaining branches at concrete props *)

Lemma extendBoundsByPlaces_skips_witness :
  (forall p, In (Val p) [Null; Val placeOff; Undefined] ->
     @isValidLatLng desktop (placeCoords p) = false) /\
  extendBoundsByPlaces (ext := desktop) regionExtend displayed
    (Val [Null; Val placeOff; Undefined]) = Ok displayed.
Proof.
  assert (H : forall p, In (Val p) [Null; Val placeOff; Undefined] ->
                @isValidLatLng desktop (placeCoords p) = false).
  { intros p [H | [H | [H | []]]]; try discriminate.
    injection H as <-. reflexivity. }
  split; [exact H | ].
  exact (proj1 (proj2 (proj2 (@extendBoundsByPlaces_skips desktop Region
                                 regionExtend displayed))) _ H).
Defined.

Lemma no_map_handle_noop_witness :
  let oldProps := unmappedProps desktop Null Null (mkQuery Null Null) in
  let newProps := unmappedProps desktop (Val itinB) (Val "detail")
                    (mkQuery (Val placeA) (Val placeB)) in
  truthy (leaflet_map (leaflet newProps)) = false /\
  updateBounds (Val oldProps) newProps world0 = Ok (tt, world0).
Proof.
  cbv zeta. split; [reflexivity | ].
  apply (@no_map_handle_noop desktop). reflexivity.
Defined.

(** Scenario 4 of the specification: the active leg goes from 0 to 1 in an
    itinerary of three legs. *)
Lemma leg_made_active_fits_witness :
  (popupActive (orEmpty (Val (propsLeg (Val 0%Z) Null)))
     (propsLeg (Val 1%Z) Null) = false /\
   itinBoundsChanged (orEmpty (Val (propsLeg (Val 0%Z) Null)))
     (propsLeg (Val 1%Z) Null) = false) /\
  updateBounds (Val (propsLeg (Val 0%Z) Null)) (propsLeg (Val 1%Z) Null)
    world0 =
    Ok (tt, emit (fitBounds
                    (@TargetBounds desktop
                       (Val (Some ((47.62%float, (-122.35)%float),
                                   (47.65%float, (-122.31)%float)))))
                    paddingOptions) world0).
Proof.
  split; [repeat split | ].
  exact (@leg_made_active_fits desktop (Val (propsLeg (Val 0%Z) Null))
           (propsLeg (Val 1%Z) Null) (mapOf desktop displayed) itinC
           world0 eq_refl eq_refl eq_refl eq_refl eq_refl eq_refl eq_refl).
Defined.

(** Scenario 2 of the specification, with intermediate places of which
    one is null and one invalid. *)
Lemma from_to_fit_on_desktop_witness :
  let ips := Val [Val placeC; Null; Val placeOff] in
  (@isMobile desktop = false /\
   fromChanged (orEmpty (Val (propsVia (Val placeA) Null ips)))
     (propsVia (Val placeA) (Val placeB) ips)
   || toChanged (orEmpty (Val (propsVia (Val placeA) Null ips)))
        (propsVia (Val placeA) (Val placeB) ips) = true /\
   propsIntermediate (propsVia (Val placeA) (Val placeB) ips) <> Null) /\
  updateBounds (Val (propsVia (Val placeA) Null ips))
    (propsVia (Val placeA) (Val placeB) ips) world0 =
    Ok (tt, emit (fitBounds
                    (@TargetCorners desktop (47.6%float, (-122.3)%float)
                       (47.7%float, (-122.4)%float))
                    paddingOptions) world0).
Proof.
  cbv zeta. split; [repeat split; discriminate | ].
  refine (@from_to_fit_on_desktop desktop
            (Val (propsVia (Val placeA) Null
                    (Val [Val placeC; Null; Val placeOff])))
            (propsVia (Val placeA) (Val placeB)
               (Val [Val placeC; Null; Val placeOff]))
            (mapOf desktop displayed)
            placeA placeB world0 eq_refl eq_refl eq_refl eq_refl eq_refl
            eq_refl eq_refl eq_refl eq_refl _).
  discriminate.
Defined.

Lemma from_to_fit_null_intermediate_witness :
  (fromToPresentChanged (orEmpty (Val (propsVia Null Null Null)))
     (propsVia (Val placeA) (Val placeB) Null) = true /\
   propsIntermediate (propsVia (Val placeA) (Val placeB) Null) = Null) /\
  updateBounds (Val (propsVia Null Null Null))
    (propsVia (Val placeA) (Val placeB) Null) world0 = TypeError.
Proof.
  split; [repeat split | ].
  exact (@from_to_fit_null_intermediate desktop
           (Val (propsVia Null Null Null))
           (propsVia (Val placeA) (Val placeB) Null)
           (mapOf desktop displayed)
           world0 eq_refl eq_refl eq_refl eq_refl eq_refl eq_refl eq_refl).
Defined.

Lemma intermediate_change_extends_displayed_witness :
  let oldProps := propsVia (Val placeA) (Val placeB) (Val []) in
  let newProps := propsVia (Val placeA) (Val placeB)
                    (Val [Val placeOff; Val placeC]) in
  (fromToPresentChanged (orEmpty (Val oldProps)) newProps = false /\
   fromSet (orEmpty (Val oldProps)) newProps = false /\
   toSet (orEmpty (Val oldProps)) newProps = false /\
   intermediateChanged (orEmpty (Val oldProps)) newProps = true) /\
  updateBounds (Val oldProps) newProps world0 =
    Ok (tt, emit (fitBounds
                    (@TargetBounds desktop
                       (Val (Some ((47%float, (-123)%float),
                                   (48%float, (-122)%float)))))
                    Undefined) world0).
Proof.
  cbv zeta. split; [repeat split | ].
  exact (@intermediate_change_extends_displayed desktop
           (Val (propsVia (Val placeA) (Val placeB) (Val [])))
           (propsVia (Val placeA) (Val placeB)
              (Val [Val placeOff; Val placeC]))
           (mapOf desktop displayed) [Val placeOff; Val placeC] world0
           eq_refl eq_refl eq_refl eq_refl eq_refl eq_refl eq_refl eq_refl
           eq_refl eq_refl).
Defined.

Lemma step_made_active_pans_witness :
  (beforeStep (orEmpty (Val (propsLeg (Val 1%Z) (Val 0%Z))))
     (propsLeg (Val 1%Z) (Val 1%Z)) = true /\
   stepMadeActive (orEmpty (Val (propsLeg (Val 1%Z) (Val 0%Z))))
     (propsLeg (Val 1%Z) (Val 1%Z)) = true) /\
  updateBounds (Val (propsLeg (Val 1%Z) (Val 0%Z)))
    (propsLeg (Val 1%Z) (Val 1%Z)) world0 =
    Ok (tt, emit (panTo (47.65%float, (-122.35)%float)) world0).
Proof.
  split; [repeat split | ].
  exact (@step_made_active_pans desktop
           (Val (propsLeg (Val 1%Z) (Val 0%Z)))
           (propsLeg (Val 1%Z) (Val 1%Z))
           (mapOf desktop displayed) itinC
           (legOf [(47.62%float, (-122.31)%float);
                   (47.65%float, (-122.35)%float)])
           {| step_lat := 47.65%float; step_lon := (-122.35)%float |}
           world0 eq_refl eq_refl eq_refl eq_refl eq_refl eq_refl).
Defined.

Lemma step_out_of_range_raises_witness :
  (beforeStep (orEmpty (Val (propsLeg (Val 1%Z) (Val 0%Z))))
     (propsLeg (Val 1%Z) (Val 2%Z)) = true /\
   stepMadeActive (orEmpty (Val (propsLeg (Val 1%Z) (Val 0%Z))))
     (propsLeg (Val 1%Z) (Val 2%Z)) = true /\
   stepInRange (propsLeg (Val 1%Z) (Val 2%Z)) = false) /\
  updateBounds (Val (propsLeg (Val 1%Z) (Val 0%Z)))
    (propsLeg (Val 1%Z) (Val 2%Z)) world0 = TypeError.
Proof.
  split; [repeat split | ].
  exact (@step_out_of_range_raises desktop
           (Val (propsLeg (Val 1%Z) (Val 0%Z)))
           (propsLeg (Val 1%Z) (Val 2%Z))
           (mapOf desktop displayed)
           world0 eq_refl eq_refl eq_refl eq_refl).
Defined.

Lemma at_most_one_effect_witness :
  let w' := emit (fitBounds (@TargetBounds desktop (Val (itineraryRegion itinB)))
                    paddingOptions) world0 in
  updateBounds (Val (propsItin itinA (Val placeA) (Val placeB)))
    (propsItin itinB (Val placeB) (Val placeA)) world0 = Ok (tt, w') /\
  now w' = now (@world0 desktop) /\
  List.length (calls w') = 1%nat /\
  timers w' = [].
Proof.
  cbv zeta. split; [reflexivity | ].
  pose proof (@at_most_one_effect desktop
                (Val (propsItin itinA (Val placeA) (Val placeB)))
                (propsItin itinB (Val placeB) (Val placeA))
                world0 _ eq_refl) as [Hnow _].
  split; [exact Hnow | split; reflexivity].
Defined.

Lemma mount_decides_by_presence_witness :
  let props := mkProps desktop displayed (Val 0%Z) (Val 0%Z) Null Undefined
                 Null (mkQuery (Val placeA) Null) in
  (truthy (popupLocation props) = false /\
   itineraryView props = Undefined) /\
  componentDidMount props world0 =
    Ok (tt, emit (panTo (47.6%float, (-122.3)%float)) world0).
Proof.
  cbv zeta. split; [repeat split | ].
  exact (@mount_decides_by_presence desktop
           (mkProps desktop displayed (Val 0%Z) (Val 0%Z) Null Undefined
              Null (mkQuery (Val placeA) Null))
           (mapOf desktop displayed) world0 eq_refl eq_refl eq_refl).
Defined.

Lemma deferred_fit_fires_once_witness :
  (popupActive (orEmpty Null) (propsView (Val "detail")) = false /\
   itineraryViewChanged (orEmpty Null) (propsView (Val "detail")) = true /\
   timers (@world0 desktop) = [] /\ (100 < 250)%Z /\ (250 <= 100 + 200)%Z) /\
  (updateBounds Null (propsView (Val "detail")) ;;; elapse 100 ;;;
   elapse 200 ;;; elapse 1000) world0 =
    Ok (tt, {| now := 1300; calls := [invalidateSize true]; timers := [] |}).
Proof.
  split; [repeat split; lia | ].
  destruct (@deferred_fit_fires_once desktop Null (propsView (Val "detail"))
              (mapOf desktop displayed) world0 100%Z 200%Z 1000%Z
              eq_refl eq_refl eq_refl eq_refl eq_refl)
    as (cs & _ & _ & H3); [discriminate | ].
  reflexivity.
Defined.

Lemma screen_clicks_never_raise_witness :
  let calm leg := {| MobileResultsScreen.screenActiveLeg := leg;
                     MobileResultsScreen.screenError := Null |} in
  let failed leg := {| MobileResultsScreen.screenActiveLeg := leg;
                       MobileResultsScreen.screenError := Val "no trip" |} in
  let es := [MobileResultsScreen.Click; MobileResultsScreen.Scroll 50;
             MobileResultsScreen.Receive (calm (Val 1%Z));
             MobileResultsScreen.Receive (failed (Val 1%Z));
             MobileResultsScreen.Click;
             MobileResultsScreen.Receive (calm (Val 1%Z));
             MobileResultsScreen.Scroll 30] in
  let m := {| MobileResultsScreen.props := calm (Val 1%Z);
              MobileResultsScreen.instance :=
                {| MobileResultsScreen.expanded := false;
                   MobileResultsScreen.container := Val 30%Z |} |} in
  MobileResultsScreen.run es (MobileResultsScreen.mount (calm (Val 0%Z))) =
    Ok m /\
  exists m',
    MobileResultsScreen.deliver MobileResultsScreen.Click m = Ok m' /\
    MobileResultsScreen.instance m' =
      {| MobileResultsScreen.expanded := true;
         MobileResultsScreen.container := Val 0%Z |}.
Proof.
  cbv zeta.
  assert (Hrun : MobileResultsScreen.run
            [MobileResultsScreen.Click; MobileResultsScreen.Scroll 50;
             MobileResultsScreen.Receive
               {| MobileResultsScreen.screenActiveLeg := Val 1%Z;
                  MobileResultsScreen.screenError := Null |};
             MobileResultsScreen.Receive
               {| MobileResultsScreen.screenActiveLeg := Val 1%Z;
                  MobileResultsScreen.screenError := Val "no trip" |};
             MobileResultsScreen.Click;
             MobileResultsScreen.Receive
               {| MobileResultsScreen.screenActiveLeg := Val 1%Z;
                  MobileResultsScreen.screenError := Null |};
             MobileResultsScreen.Scroll 30]
            (MobileResultsScreen.mount
               {| MobileResultsScreen.screenActiveLeg := Val 0%Z;
                  MobileResultsScreen.screenError := Null |}) =
          Ok {| MobileResultsScreen.props :=
                  {| MobileResultsScreen.screenActiveLeg := Val 1%Z;
                     MobileResultsScreen.screenError := Null |};
                MobileResultsScreen.instance :=
                  {| MobileResultsScreen.expanded := false;
                     MobileResultsScreen.container := Val 30%Z |} |})
    by reflexivity.
  split; [exact Hrun | ].
  destruct (screen_clicks_never_raise _ _ Hrun) as (_ & m' & Hclick & Hinst).
  exists m'. split; [exact Hclick | ]. exact (Hinst eq_refl).
Defined.

Lemma immediate_calls_classified_witness :
  let oldProps := propsVia (Val placeA) (Val placeB) (Val []) in
  let newProps := propsVia (Val placeA) (Val placeB)
                    (Val [Val placeOff; Val placeC]) in
  let c := fitBounds (@TargetBounds desktop
                        (Val (Some ((47%float, (-123)%float),
                                    (48%float, (-122)%float)))))
             Undefined in
  updateBounds (Val oldProps) newProps world0 = Ok (tt, emit c world0) /\
  intermediateBranch (orEmpty (Val oldProps)) newProps = true /\
  ((calls (emit c world0) = calls (@world0 desktop) /\
    intermediateBranch (orEmpty (Val oldProps)) newProps = false) \/
   exists c', calls (emit c world0) = calls (@world0 desktop) ++ [c'] /\
     (((exists target, c' = fitBounds target paddingOptions) /\
       intermediateBranch (orEmpty (Val oldProps)) newProps = false) \/
      ((exists target, c' = fitBounds target Undefined) /\
       intermediateBranch (orEmpty (Val oldProps)) newProps = true) \/
      ((exists latlng, c' = panTo latlng) /\
       intermediateBranch (orEmpty (Val oldProps)) newProps = false))).
Proof.
  cbv zeta. split; [reflexivity | split; [reflexivity | ]].
  exact (@immediate_calls_classified desktop
           (Val (propsVia (Val placeA) (Val placeB) (Val [])))
           (propsVia (Val placeA) (Val placeB)
              (Val [Val placeOff; Val placeC]))
           world0 _ eq_refl).
Defined.
